(** * uc2.utils.binutils: binary codec primitives, RIFF chunk sizing and
      the DIB/BMP transcoder

    A shallow embedding of [src/uc2/utils/binutils.py].  Python [bytes] are
    lists of bytes, Python [int] is [Z], the exceptions the module can raise
    are values of [exn], and every function that can raise returns a
    [result].  [struct.pack] and [struct.unpack] are modelled on coqutil's
    little-endian lists.  [dib_to_bmp] computes its offset with [math.pow],
    float addition, float division and [math.ceil]; Python floats are
    modelled as IEEE-754 binary64 values (module [Float64]). *)

From Stdlib Require Import ZArith List Lia Bool QArith Qround Qpower Lqa.
From Stdlib Require SpecFloat.
From coqutil Require Import Byte Word.LittleEndianList.
Import ListNotations.

Local Open Scope Z_scope.

(** ** Python values and exceptions *)

Module Py.

(** The exceptions of the operations used below: [struct.error] (wrong
    buffer size, integer out of range for the format), [OverflowError]
    ([math.pow] range error, [float(int)] and [math.ceil] of an infinity),
    [ZeroDivisionError] (float division) and [ValueError] ([math.ceil] of
    a NaN). *)
Inductive exn : Set :=
| struct_error
| OverflowError
| ZeroDivisionError
| ValueError.

Inductive result (A : Type) : Type :=
| Ok (a : A)
| Raise (e : exn).
Arguments Ok {A} a.
Arguments Raise {A} e.

Definition bind {A B} (r : result A) (k : A -> result B) : result B :=
  match r with
  | Ok a => k a
  | Raise e => Raise e
  end.

Definition bytes := list byte.

(** [b[i:j]] for constant [0 <= i <= j], and [b[i:]]; slicing never
    raises, it truncates. *)
Definition slice (i j : nat) (b : bytes) : bytes := firstn (j - i) (skipn i b).
Definition slice_from (i : nat) (b : bytes) : bytes := skipn i b.

Definition len (b : bytes) : Z := Z.of_nat (length b).

End Py.
Import Py.

Notation "x <- r ;; k" := (Py.bind r (fun x => k))
  (at level 61, r at next level, right associativity).

(** ** Python floats: IEEE-754 binary64, round to nearest, ties to even *)

Module Float64.

Definition prec : Z := 53.
Definition emin : Z := -1074.
Definition emax : Z := 1024.

(** A finite float is the dyadic rational [m * 2^e]; the results of the
    operations have [|m| < 2^53] and [emin <= e].  Zeros carry no sign
    (no operation used here observes it). *)
Inductive t : Set :=
| Fin (m e : Z)
| Inf (neg : bool)
| NaN.

Definition value (x : t) : Q :=
  match x with
  | Fin m e => inject_Z m * 2 ^ e
  | Inf _ | NaN => 0
  end.

Definition is_finite (x : t) : bool :=
  match x with
  | Fin _ _ => true
  | Inf _ | NaN => false
  end.

(** Number of bits of [|m|]. *)
Definition digits (m : Z) : Z :=
  if m =? 0 then 0 else Z.log2 (Z.abs m) + 1.

(** The binary64 value nearest to the exact [m * 2^e]: the exponent of
    the last kept bit is [digits m + e - prec], at least [emin]
    (subnormals); [k] low bits are dropped, a tie goes to the even
    mantissa; a carry out of the 53 bits moves the exponent up; a result
    of [2^emax] or more is an infinity. *)
Definition round (m e : Z) : t :=
  let e' := Z.max (digits m + e - prec) emin in
  let k := e' - e in
  if m =? 0 then Fin 0 0
  else if k <=? 0 then
    if digits m + e <=? emax then Fin m e else Inf (m <? 0)
  else
    let q := Z.abs m / 2 ^ k in
    let r := Z.abs m mod 2 ^ k in
    let half := 2 ^ (k - 1) in
    let q' := if r <? half then q
              else if half <? r then q + 1
              else if Z.even q then q else q + 1 in
    let '(mf, ef) := if q' =? 2 ^ prec then (2 ^ (prec - 1), e' + 1)
                     else (q', e') in
    if digits mf + ef <=? emax then Fin (Z.sgn m * mf) ef else Inf (m <? 0).

(** [float(z)] before the range check. *)
Definition of_int (z : Z) : t := round z 0.

Definition add (x y : t) : t :=
  match x, y with
  | Fin mx ex, Fin my ey =>
      let e := Z.min ex ey in
      round (mx * 2 ^ (ex - e) + my * 2 ^ (ey - e)) e
  | NaN, _ | _, NaN => NaN
  | Inf a, Inf b => if Bool.eqb a b then Inf a else NaN
  | Inf a, Fin _ _ | Fin _ _, Inf a => Inf a
  end.

Definition mul (x y : t) : t :=
  match x, y with
  | Fin mx ex, Fin my ey => round (mx * my) (ex + ey)
  | NaN, _ | _, NaN => NaN
  | Inf a, Inf b => Inf (xorb a b)
  | Inf a, Fin m _ | Fin m _, Inf a =>
      if m =? 0 then NaN else Inf (xorb a (m <? 0))
  end.

Definition is_zero (x : t) : bool :=
  match x with
  | Fin m _ => m =? 0
  | Inf _ | NaN => false
  end.

(** [x / y] for [y] other than zero: the quotient of the mantissas is
    taken to at least [prec + 2] bits, with one more bit recording a
    non-zero remainder, and rounded once. *)
Definition div (x y : t) : t :=
  match x, y with
  | Fin mx ex, Fin my ey =>
      let s := Z.max 0 (prec + 2 + digits my - digits mx) in
      let n := Z.abs mx * 2 ^ s in
      let d := Z.abs my in
      let sticky := if n mod d =? 0 then 0 else 1 in
      round (Z.sgn mx * Z.sgn my * (2 * (n / d) + sticky)) (ex - ey - s - 1)
  | NaN, _ | _, NaN => NaN
  | Inf _, Inf _ => NaN
  | Inf a, Fin m _ => Inf (xorb a (m <? 0))
  | Fin _ _, Inf _ => Fin 0 0
  end.

(** [2.0 ** n] for an integer [n], correctly rounded: exact between
    [2^emin] and [2^(emax-1)], zero below, an infinity above. *)
Definition pow2 (n : Z) : t := round 1 n.

End Float64.

(** ** Python numbers and the arithmetic [dib_to_bmp] uses *)

Inductive num : Set :=
| Int (z : Z)
| Float (x : Float64.t).

Definition num_value (a : num) : Q :=
  match a with
  | Int z => inject_Z z
  | Float x => Float64.value x
  end.

Definition num_finite (a : num) : bool :=
  match a with
  | Int _ => true
  | Float x => Float64.is_finite x
  end.

(** Conversion of an operand to float: [OverflowError] for an int too
    large for a float. *)
Definition to_float (a : num) : result Float64.t :=
  match a with
  | Int z =>
      match Float64.of_int z with
      | Float64.Inf _ => Raise OverflowError
      | x => Ok x
      end
  | Float x => Ok x
  end.

(** [a + b] *)
Definition py_add (a b : num) : result num :=
  match a, b with
  | Int x, Int y => Ok (Int (x + y))
  | _, _ => x <- to_float a ;; y <- to_float b ;; Ok (Float (Float64.add x y))
  end.

(** [a * b] *)
Definition py_mul (a b : num) : result num :=
  match a, b with
  | Int x, Int y => Ok (Int (x * y))
  | _, _ => x <- to_float a ;; y <- to_float b ;; Ok (Float (Float64.mul x y))
  end.

(** [a / y] for a float [y] *)
Definition py_truediv (a : num) (y : Float64.t) : result num :=
  x <- to_float a ;;
  if Float64.is_zero y then Raise ZeroDivisionError
  else Ok (Float (Float64.div x y)).

(** [math.pow(2, y)] for an int [y]: underflow gives [0.0], overflow
    raises. *)
Definition math_pow2 (y : Z) : result num :=
  match Float64.pow2 y with
  | Float64.Inf _ => Raise OverflowError
  | x => Ok (Float x)
  end.

(** [math.ceil(a)] *)
Definition math_ceil (a : num) : result Z :=
  match a with
  | Int z => Ok z
  | Float (Float64.Fin m e) => Ok (Qceiling (Float64.value (Float64.Fin m e)))
  | Float (Float64.Inf _) => Raise OverflowError
  | Float Float64.NaN => Raise ValueError
  end.

(** ** The [struct] module, for the formats the source uses *)

Module Struct.

(** First character of a format string: ['<'] or ['>'].  (['B'] is used
    without prefix; one byte has no order.) *)
Inductive byte_order : Set := little | big.

(** Format characters ['B'], ['H'], ['h'], ['I'], ['i']. *)
Inductive code : Set := fB | fH | fh | fI | fi.

Definition size (c : code) : nat :=
  match c with
  | fB => 1
  | fH | fh => 2
  | fI | fi => 4
  end%nat.

Definition signed (c : code) : bool :=
  match c with
  | fh | fi => true
  | fB | fH | fI => false
  end.

Definition bits (c : code) : Z := 8 * Z.of_nat (size c).

Definition min_value (c : code) : Z :=
  if signed c then - 2 ^ (bits c - 1) else 0.
Definition max_value (c : code) : Z :=
  if signed c then 2 ^ (bits c - 1) - 1 else 2 ^ bits c - 1.

Definition in_range (c : code) (v : Z) : bool :=
  (min_value c <=? v) && (v <=? max_value c).

Definition arrange (o : byte_order) (b : bytes) : bytes :=
  match o with
  | little => b
  | big => rev b
  end.

(** [struct.pack(fmt, v)]: two's complement when signed; [struct.error]
    when [v] does not fit. *)
Definition pack (o : byte_order) (c : code) (v : Z) : result bytes :=
  if in_range c v
  then Ok (arrange o (le_split (size c) v))
  else Raise struct_error.

(** [struct.unpack(fmt, data)[0]]: [struct.error] unless [data] has
    exactly [calcsize(fmt)] bytes. *)
Definition unpack (o : byte_order) (c : code) (data : bytes) : result Z :=
  if Nat.eqb (length data) (size c)
  then
    let u := le_combine (arrange o data) in
    Ok (if signed c && (2 ^ (bits c - 1) <=? u) then u - 2 ^ bits c else u)
  else Raise struct_error.

End Struct.

(** ** Primitive codec (source lines 52-155) *)

Definition order_of (be : bool) : Struct.byte_order :=
  if be then Struct.big else Struct.little.

Definition byte2py_int (data : bytes) : result Z :=
  Struct.unpack Struct.little Struct.fB data.

Definition py_int2byte (val : Z) : result bytes :=
  Struct.pack Struct.little Struct.fB val.

Definition word2py_int (data : bytes) (be : bool) : result Z :=
  Struct.unpack (order_of be) Struct.fH data.

Definition signed_word2py_int (data : bytes) (be : bool) : result Z :=
  Struct.unpack (order_of be) Struct.fh data.

Definition py_int2word (val : Z) (be : bool) : result bytes :=
  Struct.pack (order_of be) Struct.fH val.

Definition py_int2signed_word (val : Z) (be : bool) : result bytes :=
  Struct.pack (order_of be) Struct.fh val.

Definition dword2py_int (data : bytes) (be : bool) : result Z :=
  Struct.unpack (order_of be) Struct.fI data.

Definition signed_dword2py_int (data : bytes) (be : bool) : result Z :=
  Struct.unpack (order_of be) Struct.fi data.

Definition py_int2dword (val : Z) (be : bool) : result bytes :=
  Struct.pack (order_of be) Struct.fI val.

Definition py_int2signed_dword (val : Z) (be : bool) : result bytes :=
  Struct.pack (order_of be) Struct.fi val.

(** [struct.unpack('<2L', data)] (source lines 158-164): two standard-size
    unsigned longs, 4 bytes each like ['I'], from exactly 8 bytes; the
    source returns the tuple. *)
Definition pair_dword2py_int (data : bytes) : result (Z * Z) :=
  if Nat.eqb (length data) 8
  then
    a <- Struct.unpack Struct.little Struct.fI (slice 0 4 data) ;;
    b <- Struct.unpack Struct.little Struct.fI (slice 4 8 data) ;;
    Ok (a, b)
  else Raise struct_error.

(** A decoder that accepts exactly [n] bytes and returns values between
    [lo] and [hi]; an encoder that accepts exactly the values between [lo]
    and [hi] and returns [n] bytes. *)
Definition decodes_within (decode : bytes -> result Z) (n : nat) (lo hi : Z)
  : Prop :=
  forall data,
    (length data <> n -> decode data = Raise struct_error) /\
    (length data = n -> exists v, decode data = Ok v /\ lo <= v <= hi).

Definition encodes_within (encode : Z -> result bytes) (n : nat) (lo hi : Z)
  : Prop :=
  forall v,
    (v < lo \/ hi < v -> encode v = Raise struct_error) /\
    (lo <= v <= hi -> exists b, encode v = Ok b /\ length b = n).

(** ** RIFF chunk sizing (source lines 211-219) *)

Definition get_chunk_size (size_field : bytes) : result Z :=
  size <- dword2py_int size_field false ;;
  Ok (if size mod 2 =? 0 then size else size + 1).

Definition uint16_be (chunk : bytes) : result Z := word2py_int chunk true.

(** ** [dib_to_bmp] (source lines 231-253) *)

Definition magic_BM : bytes := [Byte.x42; Byte.x4d].
Definition four_zero_bytes : bytes := [Byte.x00; Byte.x00; Byte.x00; Byte.x00].

(** The literal [4.0]. *)
Definition float_4 : Float64.t := Float64.Fin 4 0.

Definition dib_to_bmp (dib : bytes) : result bytes :=
  dib_header_size <- Struct.unpack Struct.little Struct.fI (slice 0 4 dib) ;;
  let offset := Int dib_header_size in
  offset <-
    (if dib_header_size =? 12 then
       bitsperpixel <- Struct.unpack Struct.little Struct.fh (slice 10 12 dib) ;;
       if negb (bitsperpixel >? 8) then
         p <- math_pow2 bitsperpixel ;;
         t <- py_mul p (Int 3) ;;
         py_add offset t
       else Ok offset
     else
       bitsperpixel <- Struct.unpack Struct.little Struct.fh (slice 14 16 dib) ;;
       colorsnum <- Struct.unpack Struct.little Struct.fI (slice 32 36 dib) ;;
       if bitsperpixel >? 8 then
         t <- py_mul (Int colorsnum) (Int 3) ;;
         py_add offset t
       else
         p <- math_pow2 bitsperpixel ;;
         t <- py_mul p (Int 3) ;;
         py_add offset t) ;;
  q <- py_truediv offset float_4 ;;
  c <- math_ceil q ;;
  let offset := c * 4 in
  pixel_offset <- Struct.pack Struct.little Struct.fI (14 + offset) ;;
  file_size <- Struct.pack Struct.little Struct.fI (14 + len dib) ;;
  Ok (magic_BM ++ file_size ++ four_zero_bytes ++ pixel_offset ++ dib).

(** ** Observations of [dib_to_bmp] used in the statements *)

(** Header fields as the source reads them. *)
Definition sint16 (u : Z) : Z := if u <? 2 ^ 15 then u else u - 2 ^ 16.
Definition header_size (dib : bytes) : Z := le_combine (slice 0 4 dib).
Definition bits_per_pixel (at_ : nat) (dib : bytes) : Z :=
  sint16 (le_combine (slice at_ (at_ + 2) dib)).
Definition colors_used (dib : bytes) : Z := le_combine (slice 32 36 dib).

(** The palette size: the term the source adds to [offset] (lines 241, 246
    and 248); nothing is added in the legacy layout above 8 bits per
    pixel. *)
Definition palette_size (dib : bytes) : result num :=
  dib_header_size <- Struct.unpack Struct.little Struct.fI (slice 0 4 dib) ;;
  if dib_header_size =? 12 then
    bitsperpixel <- Struct.unpack Struct.little Struct.fh (slice 10 12 dib) ;;
    if negb (bitsperpixel >? 8) then
      p <- math_pow2 bitsperpixel ;; py_mul p (Int 3)
    else Ok (Int 0)
  else
    bitsperpixel <- Struct.unpack Struct.little Struct.fh (slice 14 16 dib) ;;
    colorsnum <- Struct.unpack Struct.little Struct.fI (slice 32 36 dib) ;;
    if bitsperpixel >? 8 then py_mul (Int colorsnum) (Int 3)
    else p <- math_pow2 bitsperpixel ;; py_mul p (Int 3).

(** The header-region size: the value of [offset] when line 249 is
    reached. *)
Definition header_region (dib : bytes) : result num :=
  dib_header_size <- Struct.unpack Struct.little Struct.fI (slice 0 4 dib) ;;
  p <- palette_size dib ;;
  py_add (Int dib_header_size) p.

(** Line 249: [math.ceil(offset / 4.0) * 4]. *)
Definition align4 (offset : num) : result Z :=
  q <- py_truediv offset float_4 ;;
  c <- math_ceil q ;;
  Ok (c * 4).

(** The values [offset] can hold when line 249 is reached: an int, or a
    non-negative float of 53 bits whose quarter is again a float, or one
    of the two smallest palette terms (with a zero header size). *)
Definition region_shape (offset : num) : Prop :=
  match offset with
  | Int z => 0 <= z < 2 ^ 53
  | Float (Float64.Fin m e) =>
      0 <= m < 2 ^ 53 /\
      (-1072 <= e <= 0 \/ (m = 3 /\ (e = -1074 \/ e = -1073)))
  | Float _ => False
  end.

(** The number of bytes the layout selected by the header size makes the
    source read. *)
Definition required_length (dib : bytes) : nat :=
  if header_size dib =? 12 then 12%nat else 36%nat.

(** The palette term before the integer is added, for 8 bits per pixel or
    fewer: [3 * 2^bpp], or [0.0] when [2^bpp] is below the smallest
    float. *)
Definition pow_term (bpp : Z) : Float64.t :=
  if bpp <? -1074 then Float64.Fin 0 0 else Float64.Fin 3 bpp.

(** A DIB of one of the two header layouts, long enough for the fields of
    its layout. *)
Definition valid_dib (dib : bytes) : Prop :=
  (header_size dib = 12 /\ (12 <= length dib)%nat) \/
  (40 <= header_size dib /\ (36 <= length dib)%nat).

(** The two 32-bit fields of the file header can hold their values: the
    file size [14 + len(dib)], and the pixel offset, which needs the header
    region to be at most [2^32 - 16]. *)
Definition fits_32_bits (dib : bytes) : Prop :=
  14 + len dib < 2 ^ 32 /\
  exists offset,
    header_region dib = Ok offset /\
    (num_value offset <= inject_Z (2 ^ 32 - 16))%Q.

(** The two stored fields of a BMP file header. *)
Definition stored_file_size (bmp : bytes) : Z := le_combine (slice 2 6 bmp).
Definition stored_pixel_offset (bmp : bytes) : Z := le_combine (slice 10 14 bmp).

(** The palette size in whole bytes, for a bit count that is not negative:
    the integer value of the term the source adds. *)
Definition whole_palette (dib : bytes) : Z :=
  if header_size dib =? 12 then
    if bits_per_pixel 10 dib >? 8 then 0 else 3 * 2 ^ bits_per_pixel 10 dib
  else
    if bits_per_pixel 14 dib >? 8 then colors_used dib * 3
    else 3 * 2 ^ bits_per_pixel 14 dib.

(** The bit count the layout of [dib] reads. *)
Definition bit_count (dib : bytes) : Z :=
  if header_size dib =? 12 then bits_per_pixel 10 dib
  else bits_per_pixel 14 dib.

(** ** [bmp_to_dib] (source lines 256-262) *)

Definition bmp_to_dib (bmp : bytes) : result bytes :=
  Ok (slice_from 14 bmp).

(** ** Cross-check of [Float64] against the standard library's IEEE-754
       model *)

Module SpecCheck.

Definition to_spec (x : Float64.t) : SpecFloat.spec_float :=
  match x with
  | Float64.Fin m e => SpecFloat.binary_normalize 53 1024 m e false
  | Float64.Inf neg => SpecFloat.S754_infinity neg
  | Float64.NaN => SpecFloat.S754_nan
  end.

Definition representable (x : Float64.t) : bool :=
  match x with
  | Float64.Fin m e => (Z.abs m <? 2 ^ Float64.prec) && (Float64.emin <=? e)
  | _ => true
  end.

Definition agree (x : Float64.t) (y : SpecFloat.spec_float) : bool :=
  representable x &&
  match SpecFloat.SFcompare (to_spec x) y with
  | Some Eq => true
  | _ => false
  end.

Definition spec_of_int (z : Z) : SpecFloat.spec_float :=
  SpecFloat.binary_normalize 53 1024 z 0 false.

(** The float computation of [dib_to_bmp], [h + 2.0**bpp * 3] and its
    quotient by [4.0], on both models. *)
Definition check (h bpp : Z) : bool :=
  let x :=
    Float64.add (Float64.of_int h)
      (Float64.mul (Float64.pow2 bpp) (Float64.of_int 3)) in
  let y :=
    SpecFloat.SFadd 53 1024 (spec_of_int h)
      (SpecFloat.SFmul 53 1024
         (SpecFloat.binary_normalize 53 1024 1 bpp false) (spec_of_int 3)) in
  agree x y &&
  agree (Float64.div x float_4) (SpecFloat.SFdiv 53 1024 y (spec_of_int 4)).

Definition header_sizes : list Z :=
  [0; 1; 2; 3; 4; 12; 13; 40; 41; 124; 65535; 2147483647; 2147483648;
   4294967294; 4294967295; 9007199254740991; 9007199254740993;
   18014398509481983].

Definition bit_counts : list Z :=
  [8; 4; 1; 0; -1; -2; -3; -20; -21; -22; -23; -24; -25; -30; -31; -32; -33;
   -49; -50; -51; -52; -53; -54; -55; -60; -1021; -1022; -1023; -1024;
   -1072; -1073; -1074; -1075; -1076; -2000; -32768; 1020; 1021; 1022; 1023;
   1024; 32767].

End SpecCheck.

(** ** Sample inputs *)

(** A 12-byte legacy (OS/2) header: size 12, width 1, height 1, one plane,
    [bpp] bits per pixel. *)
Definition legacy_dib (bpp : Z) : bytes :=
  le_split 4 12 ++ le_split 2 1 ++ le_split 2 1 ++ le_split 2 1 ++
  le_split 2 bpp.

(** A 40-byte modern header layout: size field [h], width 1, height 1, one
    plane, [bpp] bits per pixel, no compression, [colors] colors used. *)
Definition modern_dib (h bpp colors : Z) : bytes :=
  le_split 4 h ++ le_split 4 1 ++ le_split 4 1 ++ le_split 2 1 ++
  le_split 2 bpp ++ le_split 4 0 ++ le_split 4 0 ++ le_split 4 0 ++
  le_split 4 0 ++ le_split 4 colors ++ le_split 4 0.

(** * Properties *)

(** ** [Float64] agrees with [SpecFloat] on the sampled computations *)

Example float64_agrees_with_SpecFloat :
  forallb (fun h => forallb (SpecCheck.check h) SpecCheck.bit_counts)
    SpecCheck.header_sizes = true.
Proof. vm_compute. reflexivity. Qed.

(** ** [struct] round trip *)

Lemma length_arrange o b : length (Struct.arrange o b) = length b.
Proof. destruct o; simpl; [reflexivity | apply length_rev]. Qed.

Lemma arrange_involutive o b : Struct.arrange o (Struct.arrange o b) = b.
Proof. destruct o; simpl; [reflexivity | apply rev_involutive]. Qed.

Lemma in_range_bounds c v :
  Struct.in_range c v = true <-> Struct.min_value c <= v <= Struct.max_value c.
Proof.
  unfold Struct.in_range. rewrite andb_true_iff, !Z.leb_le. tauto.
Qed.

Lemma mod_wrap_negative v b : - b <= v < 0 -> v mod b = v + b.
Proof.
  intros H. symmetry. apply Z.mod_unique with (q := -1); lia.
Qed.

Lemma signed_unwrap v n :
  0 < n -> - 2 ^ (n - 1) <= v <= 2 ^ (n - 1) - 1 ->
  (if 2 ^ (n - 1) <=? v mod 2 ^ n then v mod 2 ^ n - 2 ^ n else v mod 2 ^ n) = v.
Proof.
  intros Hn Hv.
  assert (Hp : 2 ^ n = 2 * 2 ^ (n - 1)).
  { rewrite <- Z.pow_succ_r by lia. f_equal. lia. }
  assert (0 < 2 ^ (n - 1)) by (apply Z.pow_pos_nonneg; lia).
  destruct (Z.le_gt_cases 0 v) as [Hs|Hs].
  - rewrite Z.mod_small by lia.
    destruct (Z.leb_spec (2 ^ (n - 1)) v); lia.
  - rewrite mod_wrap_negative by lia.
    destruct (Z.leb_spec (2 ^ (n - 1)) (v + 2 ^ n)); lia.
Qed.

Lemma unpack_pack o c v :
  Struct.in_range c v = true ->
  exists b, Struct.pack o c v = Ok b /\ length b = Struct.size c /\
            Struct.unpack o c b = Ok v.
Proof.
  intros Hr. unfold Struct.pack. rewrite Hr.
  eexists; split; [reflexivity|].
  rewrite length_arrange, length_le_split. split; [reflexivity|].
  unfold Struct.unpack.
  rewrite length_arrange, length_le_split, Nat.eqb_refl, arrange_involutive.
  rewrite le_combine_split. f_equal.
  apply in_range_bounds in Hr.
  replace (Z.of_nat (Struct.size c) * 8) with (Struct.bits c)
    by (unfold Struct.bits; lia).
  assert (Hb : 0 < Struct.bits c) by (destruct c; reflexivity).
  unfold Struct.min_value, Struct.max_value in Hr.
  destruct (Struct.signed c); simpl.
  - apply signed_unwrap; assumption.
  - apply Z.mod_small; lia.
Qed.

(** ** binary64 rounding *)

Section Rounding.
Import Float64.

Lemma digits_positive m : 0 < m -> digits m = Z.log2 m + 1.
Proof.
  intros H. unfold digits.
  destruct (Z.eqb_spec m 0); [lia|]. rewrite Z.abs_eq by lia. reflexivity.
Qed.

Lemma digits_spec m : 0 < m -> 2 ^ (digits m - 1) <= m < 2 ^ digits m.
Proof.
  intros H. rewrite digits_positive by assumption.
  replace (Z.log2 m + 1 - 1) with (Z.log2 m) by lia.
  apply Z.log2_spec in H. rewrite <- Z.add_1_r in H. exact H.
Qed.

Lemma digits_le m n : 0 < m -> m < 2 ^ n -> digits m <= n.
Proof.
  intros H Hn. rewrite digits_positive by assumption.
  apply Z.log2_lt_pow2 in Hn; lia.
Qed.

Lemma digits_ge m n : 0 < m -> 2 ^ n <= m -> n + 1 <= digits m.
Proof.
  intros H Hn. rewrite digits_positive by assumption.
  destruct (Z.le_gt_cases 0 n) as [H0|H0].
  - apply Z.log2_le_pow2 in Hn; lia.
  - pose proof (Z.log2_nonneg m). lia.
Qed.

Lemma lt_pow2_digits m : 0 < m -> m < 2 ^ digits m.
Proof. intros H. apply digits_spec; assumption. Qed.

Lemma round_0 e : round 0 e = Fin 0 0.
Proof. reflexivity. Qed.

(** A value that already fits is returned as it is. *)
Lemma round_exact m e :
  0 < m < 2 ^ prec -> emin <= e <= emax - prec -> round m e = Fin m e.
Proof.
  intros Hm He. unfold round.
  pose proof (digits_le m prec ltac:(lia) ltac:(lia)) as Hd.
  destruct (Z.eqb_spec m 0); [lia|].
  destruct (Z.leb_spec (Z.max (digits m + e - prec) emin - e) 0); [|lia].
  destruct (Z.leb_spec (digits m + e) emax); [reflexivity|lia].
Qed.

(** Rounding a positive value that lies between two integers below
    [2^prec]: the result is finite, keeps 53 bits, and stays between
    them. *)
Lemma round_between m e lo hi :
  e <= 0 -> 1 <= lo -> hi < 2 ^ prec ->
  lo * 2 ^ (- e) <= m <= hi * 2 ^ (- e) ->
  exists m' e',
    round m e = Fin m' e' /\ 0 < m' < 2 ^ prec /\ - 52 <= e' <= 0 /\
    lo * 2 ^ (- e') <= m' <= hi * 2 ^ (- e').
Proof.
  intros He Hlo Hhi Hm.
  assert (HP : 0 < 2 ^ (- e)) by (apply Z.pow_pos_nonneg; lia).
  assert (Hm0 : 0 < m) by nia.
  pose proof (digits_spec m Hm0) as Hd.
  assert (Hd1 : 1 <= digits m + e).
  { pose proof (digits_ge m (- e) Hm0 ltac:(nia)). lia. }
  assert (Hd2 : digits m + e <= prec).
  { assert (m < 2 ^ (prec - e)).
    { replace (prec - e) with (prec + - e) by lia.
      rewrite Z.pow_add_r by (unfold prec; lia). nia. }
    pose proof (digits_le m (prec - e) Hm0 H). lia. }
  unfold round.
  destruct (Z.eqb_spec m 0); [lia|].
  replace (Z.max (digits m + e - prec) emin) with (digits m + e - prec)
    by (unfold prec, emin in *; lia).
  rewrite Z.abs_eq by lia.
  replace (Z.sgn m) with 1 by (symmetry; apply Z.sgn_pos; lia).
  set (k := digits m + e - prec - e).
  destruct (Z.leb_spec k 0) as [Hk|Hk].
  - destruct (Z.leb_spec (digits m + e) emax);
      [|unfold prec, emax in *; lia].
    exists m, e. split; [reflexivity|].
    split; [|split; [unfold prec in *; lia | assumption]].
    split; [assumption|].
    apply Z.lt_le_trans with (2 ^ digits m); [apply Hd|].
    apply Z.pow_le_mono_r; lia.
  - set (e' := digits m + e - prec) in *.
    assert (He' : e' <= 0) by lia.
    assert (HX : 0 < 2 ^ (- e')) by (apply Z.pow_pos_nonneg; lia).
    assert (HK : 0 < 2 ^ k) by (apply Z.pow_pos_nonneg; lia).
    assert (Hsplit : 2 ^ (- e) = 2 ^ k * 2 ^ (- e')).
    { rewrite <- Z.pow_add_r by lia. f_equal. lia. }
    assert (Hhalf : 0 < 2 ^ (k - 1)) by (apply Z.pow_pos_nonneg; lia).
    pose proof (Z.div_mod m (2 ^ k) ltac:(lia)) as Hdm.
    pose proof (Z.mod_pos_bound m (2 ^ k) HK) as Hr.
    set (q := m / 2 ^ k) in *. set (r := m mod 2 ^ k) in *.
    assert (Hq1 : lo * 2 ^ (- e') <= q) by nia.
    assert (Hq2 : q <= hi * 2 ^ (- e')) by nia.
    assert (Hq3 : q < 2 ^ prec).
    { assert (2 ^ digits m = 2 ^ prec * 2 ^ k).
      { rewrite <- Z.pow_add_r by (unfold prec; lia). f_equal. lia. }
      nia. }
    set (q' := if r <? 2 ^ (k - 1) then q
               else if 2 ^ (k - 1) <? r then q + 1
                    else if Z.even q then q else q + 1).
    assert (Hq' : q' = q \/ (q' = q + 1 /\ 0 < r)).
    { unfold q'. destruct (Z.ltb_spec r (2 ^ (k - 1))); [left; reflexivity|].
      destruct (Z.ltb_spec (2 ^ (k - 1)) r); [right; lia|].
      destruct (Z.even q); [left; reflexivity | right; lia]. }
    assert (Hb : lo * 2 ^ (- e') <= q' <= hi * 2 ^ (- e')).
    { destruct Hq' as [->|[-> Hr0]]; [lia|]. split; [lia|]. nia. }
    assert (Hq'u : q' <= 2 ^ prec) by (destruct Hq' as [->|[-> _]]; lia).
    destruct (Z.eqb_spec q' (2 ^ prec)) as [Hc|Hc].
    + assert (He'1 : e' < 0).
      { destruct (Z.eq_dec e' 0) as [E0|]; [|lia].
        rewrite E0 in Hb. simpl in Hb. lia. }
      assert (HY : 2 ^ (- e') = 2 * 2 ^ (- (e' + 1))).
      { rewrite <- Z.pow_succ_r by lia. f_equal. lia. }
      assert (H52 : 2 ^ prec = 2 * 2 ^ (prec - 1)) by reflexivity.
      change (digits (2 ^ (prec - 1))) with 53.
      destruct (Z.leb_spec (53 + (e' + 1)) emax); [|unfold emax in *; lia].
      exists (2 ^ (prec - 1)), (e' + 1).
      split; [f_equal; lia|].
      split; [split; [reflexivity|reflexivity]|].
      split; [unfold prec in *; lia|]. nia.
    + assert (Hq'0 : 0 < q') by nia.
      pose proof (digits_le q' prec Hq'0 ltac:(lia)).
      destruct (Z.leb_spec (digits q' + e') emax);
        [|unfold prec, emax in *; lia].
      exists q', e'. split; [f_equal; lia|].
      split; [lia|]. split; [unfold prec in *; lia | assumption].
Qed.

(** A value that fits at a higher exponent is returned with the same
    value, at some exponent in between. *)
Lemma round_shifted m0 e0 j :
  0 < m0 < 2 ^ prec -> emin <= e0 <= emax - prec -> 0 <= j ->
  exists j', 0 <= j' <= j /\
             round (m0 * 2 ^ j) (e0 - j) = Fin (m0 * 2 ^ j') (e0 - j').
Proof.
  intros Hm He Hj.
  assert (HJ : 0 < 2 ^ j) by (apply Z.pow_pos_nonneg; lia).
  assert (Hm' : 0 < m0 * 2 ^ j) by nia.
  pose proof (digits_le m0 prec ltac:(lia) ltac:(lia)) as Hd.
  assert (Hdm : digits (m0 * 2 ^ j) = digits m0 + j).
  { rewrite !digits_positive by lia. rewrite Z.log2_mul_pow2 by lia. lia. }
  unfold round. rewrite Hdm.
  destruct (Z.eqb_spec (m0 * 2 ^ j) 0); [lia|].
  rewrite Z.abs_eq by lia.
  replace (Z.sgn (m0 * 2 ^ j)) with 1 by (symmetry; apply Z.sgn_pos; lia).
  set (e' := Z.max (digits m0 + j + (e0 - j) - prec) emin).
  assert (He' : e' <= e0) by (unfold e'; lia).
  destruct (Z.leb_spec (e' - (e0 - j)) 0) as [Hk|Hk].
  - destruct (Z.leb_spec (digits m0 + j + (e0 - j)) emax); [|lia].
    exists j. split; [lia | reflexivity].
  - set (k := e' - (e0 - j)) in *.
    assert (HK : 0 < 2 ^ k) by (apply Z.pow_pos_nonneg; lia).
    assert (Hsplit : 2 ^ j = 2 ^ (j - k) * 2 ^ k).
    { rewrite <- Z.pow_add_r by lia. f_equal. lia. }
    rewrite Hsplit, Z.mul_assoc, Z.div_mul, Z.mod_mul by lia.
    assert (Hhalf : 0 < 2 ^ (k - 1)) by (apply Z.pow_pos_nonneg; lia).
    destruct (Z.ltb_spec 0 (2 ^ (k - 1))); [|lia].
    assert (HJK : 0 < 2 ^ (j - k)) by (apply Z.pow_pos_nonneg; lia).
    assert (Hdq : digits (m0 * 2 ^ (j - k)) = digits m0 + (j - k)).
    { rewrite !digits_positive by nia. rewrite Z.log2_mul_pow2 by lia. lia. }
    assert (Hq : m0 * 2 ^ (j - k) < 2 ^ prec).
    { apply Z.lt_le_trans with (2 ^ digits (m0 * 2 ^ (j - k))).
      - apply lt_pow2_digits. nia.
      - apply Z.pow_le_mono_r; [lia|]. rewrite Hdq. unfold k, e'. lia. }
    destruct (Z.eqb_spec (m0 * 2 ^ (j - k)) (2 ^ prec)); [lia|].
    rewrite Hdq.
    destruct (Z.leb_spec (digits m0 + (j - k) + e') emax);
      [|unfold k in *; lia].
    exists (j - k). split; [lia|]. f_equal; unfold k; lia.
Qed.

End Rounding.

(** ** Values of floats as rationals *)

Lemma Qpow2_add a b : (2 ^ (a + b) == 2 ^ a * 2 ^ b)%Q.
Proof. apply Qpower_plus. discriminate. Qed.

Lemma Qpow2_pos a : (0 < 2 ^ a)%Q.
Proof. apply Qpower_0_lt. reflexivity. Qed.

Lemma Qpow2_inject j : 0 <= j -> (inject_Z (2 ^ j) == 2 ^ j)%Q.
Proof. intros H. apply Zpower_Qpower. assumption. Qed.

Lemma value_shift m e j :
  0 <= j ->
  (Float64.value (Float64.Fin (m * 2 ^ j) (e - j)) ==
   Float64.value (Float64.Fin m e))%Q.
Proof.
  intros Hj. simpl.
  rewrite inject_Z_mult, Qpow2_inject by assumption.
  replace e with ((e - j) + j) at 2 by lia.
  rewrite Qpow2_add. ring.
Qed.

Lemma scaled_ge lo m e :
  e <= 0 -> lo * 2 ^ (- e) <= m -> (inject_Z lo <= inject_Z m * 2 ^ e)%Q.
Proof.
  intros He H.
  assert (E : (inject_Z lo == inject_Z (lo * 2 ^ (- e)) * 2 ^ e)%Q).
  { rewrite inject_Z_mult, Qpow2_inject by lia.
    rewrite <- Qmult_assoc, <- Qpow2_add.
    replace (- e + e) with 0 by lia. simpl. ring. }
  rewrite E. apply Qmult_le_compat_r.
  - rewrite <- Zle_Qle. assumption.
  - apply Qlt_le_weak, Qpow2_pos.
Qed.

Lemma scaled_le hi m e :
  e <= 0 -> m <= hi * 2 ^ (- e) -> (inject_Z m * 2 ^ e <= inject_Z hi)%Q.
Proof.
  intros He H.
  assert (E : (inject_Z hi == inject_Z (hi * 2 ^ (- e)) * 2 ^ e)%Q).
  { rewrite inject_Z_mult, Qpow2_inject by lia.
    rewrite <- Qmult_assoc, <- Qpow2_add.
    replace (- e + e) with 0 by lia. simpl. ring. }
  rewrite E. apply Qmult_le_compat_r.
  - rewrite <- Zle_Qle. assumption.
  - apply Qlt_le_weak, Qpow2_pos.
Qed.

(** ** Line 249: division by [4.0], [math.ceil], times 4 *)

Lemma div_by_4 m e :
  0 <= m < 2 ^ 53 -> -1072 <= e <= 971 ->
  exists m' e',
    Float64.div (Float64.Fin m e) float_4 = Float64.Fin m' e' /\
    (Float64.value (Float64.Fin m' e') ==
     Float64.value (Float64.Fin m e) * (1 # 4))%Q.
Proof.
  intros Hm He.
  destruct (Z.eq_dec m 0) as [->|Hm0].
  - exists 0, 0. split; [reflexivity|]. simpl. ring.
  - pose proof (digits_le m 53 ltac:(lia) ltac:(lia)) as Hd.
    pose proof (digits_ge m 0 ltac:(lia) ltac:(simpl; lia)) as Hd0.
    unfold Float64.div, float_4.
    change (Float64.digits 4) with 3. change (Z.abs 4) with 4.
    change (Z.sgn 4) with 1. unfold Float64.prec.
    rewrite Z.abs_eq by lia.
    replace (Z.sgn m) with 1 by (symmetry; apply Z.sgn_pos; lia).
    set (s := Z.max 0 (53 + 2 + 3 - Float64.digits m)).
    assert (Hs : 5 <= s) by (unfold s; lia).
    assert (Hsplit : 2 ^ s = 2 ^ (s - 2) * 4).
    { change 4 with (2 ^ 2). rewrite <- Z.pow_add_r by lia. f_equal. lia. }
    rewrite Hsplit, Z.mul_assoc, Z.mod_mul, Z.div_mul by lia.
    simpl (if 0 =? 0 then 0 else 1).
    replace (1 * 1 * (2 * (m * 2 ^ (s - 2)) + 0)) with (m * 2 ^ (s - 1)).
    2:{ replace (s - 1) with (Z.succ (s - 2)) by lia.
        rewrite Z.pow_succ_r by lia. ring. }
    replace (e - 0 - s - 1) with ((e - 2) - (s - 1)) by lia.
    destruct (round_shifted m (e - 2) (s - 1)) as (j' & Hj' & ->);
      [unfold Float64.prec; lia
      |unfold Float64.emin, Float64.emax, Float64.prec; lia
      |lia|].
    exists (m * 2 ^ j'), (e - 2 - j'). split; [reflexivity|].
    rewrite value_shift by lia. simpl.
    replace e with ((e - 2) + 2) at 2 by lia.
    rewrite Qpow2_add. change (2 ^ 2)%Q with 4%Q. field.
Qed.

Lemma quarter_ceiling (v : Q) (c : Z) :
  c = Qceiling (v * (1 # 4)) ->
  (c * 4) mod 4 = 0 /\ (v <= inject_Z (c * 4) /\ inject_Z (c * 4) < v + 4)%Q.
Proof.
  intros ->. split; [apply Z.mod_mul; lia|].
  pose proof (Qle_ceiling (v * (1 # 4))) as H1.
  pose proof (Qceiling_lt (v * (1 # 4))) as H2.
  set (c := Qceiling (v * (1 # 4))) in *.
  rewrite inject_Z_mult. change (inject_Z 4) with 4%Q.
  unfold Z.sub in H2. rewrite inject_Z_plus in H2.
  change (inject_Z (- (1))) with (- (1))%Q in H2.
  clearbody c. split; lra.
Qed.

Lemma of_int_small z : 0 <= z < 2 ^ 53 -> Float64.of_int z = Float64.Fin z 0.
Proof.
  intros H. unfold Float64.of_int.
  destruct (Z.eq_dec z 0) as [->|Hz]; [reflexivity|].
  apply round_exact; [unfold Float64.prec; lia | split; discriminate].
Qed.

Lemma to_float_small z :
  0 <= z < 2 ^ 53 -> to_float (Int z) = Ok (Float64.Fin z 0).
Proof. intros H. unfold to_float. rewrite of_int_small by assumption. reflexivity. Qed.

Lemma align4_float m e :
  0 <= m < 2 ^ 53 -> -1072 <= e <= 0 ->
  exists r, align4 (Float (Float64.Fin m e)) = Ok r /\ r mod 4 = 0 /\
            (Float64.value (Float64.Fin m e) <= inject_Z r /\
             inject_Z r < Float64.value (Float64.Fin m e) + 4)%Q.
Proof.
  intros Hm He.
  destruct (div_by_4 m e Hm ltac:(lia)) as (m' & e' & Hdiv & Hval).
  unfold align4, py_truediv, to_float, Py.bind.
  change (Float64.is_zero float_4) with false. cbv iota.
  rewrite Hdiv. unfold math_ceil.
  eexists. split; [reflexivity|].
  apply quarter_ceiling. apply Qceiling_comp. exact Hval.
Qed.

Lemma align4_spec offset :
  region_shape offset ->
  exists r, align4 offset = Ok r /\ r mod 4 = 0 /\
            (num_value offset <= inject_Z r /\ inject_Z r < num_value offset + 4)%Q.
Proof.
  destruct offset as [z|[m e| |]]; simpl; intros H; try contradiction.
  - destruct (align4_float z 0 H ltac:(lia)) as (r & Hr & Hmod & Hv).
    exists r. split; [|split; [assumption|]].
    + unfold align4, py_truediv in *. rewrite to_float_small by assumption.
      exact Hr.
    + simpl in Hv. setoid_replace (inject_Z z) with (inject_Z z * 1)%Q by ring.
      exact Hv.
  - destruct H as [Hm [He|[-> [->| ->]]]].
    + apply align4_float; assumption.
    + exists 4. split; [vm_compute; reflexivity|].
      split; [reflexivity|]. split; vm_compute; [discriminate | reflexivity].
    + exists 4. split; [vm_compute; reflexivity|].
      split; [reflexivity|]. split; vm_compute; [discriminate | reflexivity].
Qed.

(** ** [dib_to_bmp] in stages *)

Lemma dib_to_bmp_stages dib :
  dib_to_bmp dib =
  (offset <- header_region dib ;;
   r <- align4 offset ;;
   pixel_offset <- Struct.pack Struct.little Struct.fI (14 + r) ;;
   file_size <- Struct.pack Struct.little Struct.fI (14 + len dib) ;;
   Ok (magic_BM ++ file_size ++ four_zero_bytes ++ pixel_offset ++ dib)).
Proof.
  unfold dib_to_bmp, header_region, palette_size, align4.
  destruct (Struct.unpack Struct.little Struct.fI (slice 0 4 dib)) as [h|];
    [|reflexivity].
  cbn [Py.bind].
  destruct (h =? 12).
  - destruct (Struct.unpack Struct.little Struct.fh (slice 10 12 dib)) as [b|];
      [|reflexivity].
    cbn [Py.bind]. destruct (negb (b >? 8)).
    + destruct (math_pow2 b) as [p|]; [|reflexivity]. cbn [Py.bind].
      destruct (py_mul p (Int 3)) as [t|]; [|reflexivity]. cbn [Py.bind].
      destruct (py_add (Int h) t) as [o|]; [|reflexivity]. cbn [Py.bind].
      destruct (py_truediv o float_4) as [q|]; [|reflexivity]. cbn [Py.bind].
      destruct (math_ceil q); reflexivity.
    + cbn [Py.bind py_add]. replace (h + 0) with h by lia. cbn [Py.bind].
      destruct (py_truediv (Int h) float_4) as [q|]; [|reflexivity].
      cbn [Py.bind]. destruct (math_ceil q); reflexivity.
  - destruct (Struct.unpack Struct.little Struct.fh (slice 14 16 dib)) as [b|];
      [|reflexivity].
    cbn [Py.bind].
    destruct (Struct.unpack Struct.little Struct.fI (slice 32 36 dib)) as [c|];
      [|reflexivity].
    cbn [Py.bind]. destruct (b >? 8).
    + destruct (py_mul (Int c) (Int 3)) as [t|]; [|reflexivity]. cbn [Py.bind].
      destruct (py_add (Int h) t) as [o|]; [|reflexivity]. cbn [Py.bind].
      destruct (py_truediv o float_4) as [q|]; [|reflexivity]. cbn [Py.bind].
      destruct (math_ceil q); reflexivity.
    + destruct (math_pow2 b) as [p|]; [|reflexivity]. cbn [Py.bind].
      destruct (py_mul p (Int 3)) as [t|]; [|reflexivity]. cbn [Py.bind].
      destruct (py_add (Int h) t) as [o|]; [|reflexivity]. cbn [Py.bind].
      destruct (py_truediv o float_4) as [q|]; [|reflexivity]. cbn [Py.bind].
      destruct (math_ceil q); reflexivity.
Qed.

(** ** Reading the header fields *)

Lemma length_slice i j (b : bytes) :
  length (slice i j b) = Nat.min (j - i) (length b - i).
Proof. unfold slice. rewrite length_firstn, length_skipn. reflexivity. Qed.

Lemma unpack_wrong_size o c b :
  length b <> Struct.size c -> Struct.unpack o c b = Raise struct_error.
Proof.
  intros H. unfold Struct.unpack.
  destruct (Nat.eqb_spec (length b) (Struct.size c)); [contradiction|reflexivity].
Qed.

Lemma unpack_u32 b :
  length b = 4%nat ->
  Struct.unpack Struct.little Struct.fI b = Ok (le_combine b) /\
  0 <= le_combine b < 2 ^ 32.
Proof.
  intros H. unfold Struct.unpack. rewrite H. split; [reflexivity|].
  pose proof (le_combine_bound b) as Hb. rewrite H in Hb. exact Hb.
Qed.

Lemma unpack_s16 b :
  length b = 2%nat ->
  Struct.unpack Struct.little Struct.fh b = Ok (sint16 (le_combine b)) /\
  - 2 ^ 15 <= sint16 (le_combine b) < 2 ^ 15.
Proof.
  intros H. unfold Struct.unpack. rewrite H.
  pose proof (le_combine_bound b) as Hb. rewrite H in Hb.
  change (2 ^ (8 * Z.of_nat 2)) with (2 ^ 16) in Hb.
  cbn [Nat.eqb Struct.size Struct.signed Struct.arrange andb].
  change (Struct.bits Struct.fh) with 16. change (2 ^ (16 - 1)) with (2 ^ 15).
  unfold sint16.
  destruct (Z.leb_spec (2 ^ 15) (le_combine b));
    destruct (Z.ltb_spec (le_combine b) (2 ^ 15)); try lia;
    (split; [reflexivity | lia]).
Qed.

Lemma read_header_size dib :
  (4 <= length dib)%nat ->
  Struct.unpack Struct.little Struct.fI (slice 0 4 dib) = Ok (header_size dib) /\
  0 <= header_size dib < 2 ^ 32.
Proof.
  intros H. apply unpack_u32. rewrite length_slice. lia.
Qed.

Lemma read_bits_per_pixel at_ dib :
  (at_ + 2 <= length dib)%nat ->
  Struct.unpack Struct.little Struct.fh (slice at_ (at_ + 2) dib) =
    Ok (bits_per_pixel at_ dib) /\
  - 2 ^ 15 <= bits_per_pixel at_ dib < 2 ^ 15.
Proof.
  intros H. apply unpack_s16. rewrite length_slice. lia.
Qed.

Lemma read_colors_used dib :
  (36 <= length dib)%nat ->
  Struct.unpack Struct.little Struct.fI (slice 32 36 dib) = Ok (colors_used dib) /\
  0 <= colors_used dib < 2 ^ 32.
Proof.
  intros H. apply unpack_u32. rewrite length_slice. lia.
Qed.

(** ** The palette term [math.pow(2, bitsperpixel) * 3] and the sum *)

Lemma pow2_exact n :
  -1074 <= n <= 971 -> math_pow2 n = Ok (Float (Float64.Fin 1 n)).
Proof.
  intros H. unfold math_pow2, Float64.pow2.
  rewrite round_exact; [reflexivity | split; reflexivity |].
  unfold Float64.emin, Float64.emax, Float64.prec. lia.
Qed.

Lemma pow2_underflow n :
  n < -1074 -> math_pow2 n = Ok (Float (Float64.Fin 0 (-1074))).
Proof.
  intros H. unfold math_pow2, Float64.pow2, Float64.round.
  change (Float64.digits 1) with 1. change (1 =? 0) with false.
  change (Z.abs 1) with 1. change (Z.sgn 1) with 1.
  unfold Float64.prec, Float64.emin.
  replace (Z.max (1 + n - 53) (-1074)) with (-1074) by lia.
  set (k := -1074 - n).
  destruct (Z.leb_spec k 0); [lia|].
  assert (Hhalf : 1 <= 2 ^ (k - 1)).
  { assert (0 < 2 ^ (k - 1)) by (apply Z.pow_pos_nonneg; lia). lia. }
  assert (HK : 2 ^ k = 2 * 2 ^ (k - 1)).
  { rewrite <- Z.pow_succ_r by lia. f_equal. lia. }
  rewrite Z.div_small, Z.mod_small by lia.
  destruct (Z.ltb_spec 1 (2 ^ (k - 1))).
  - reflexivity.
  - destruct (Z.ltb_spec (2 ^ (k - 1)) 1); [lia|]. reflexivity.
Qed.

Lemma pow_palette bpp :
  bpp <= 8 ->
  (p <- math_pow2 bpp ;; py_mul p (Int 3)) =
  Ok (Float (pow_term bpp)).
Proof.
  intros H. unfold pow_term. destruct (Z.ltb_spec bpp (-1074)).
  - rewrite pow2_underflow by assumption. reflexivity.
  - rewrite pow2_exact by lia. cbn [Py.bind].
    unfold py_mul.
    change (to_float (Int 3)) with (Ok (Float64.Fin 3 0)).
    cbn [to_float Py.bind Float64.mul]. rewrite Z.add_0_r. change (1 * 3) with 3.
    rewrite round_exact; [reflexivity | split; reflexivity |].
    unfold Float64.emin, Float64.emax, Float64.prec. lia.
Qed.

Lemma value_int z : (Float64.value (Float64.Fin z 0) == inject_Z z)%Q.
Proof. simpl. ring. Qed.

Lemma add_header_pow h bpp :
  0 <= h < 2 ^ 32 -> bpp <= 8 ->
  exists offset,
    py_add (Int h) (Float (pow_term bpp)) = Ok offset /\
    region_shape offset /\
    (inject_Z h <= num_value offset /\ num_value offset <= inject_Z (h + 768))%Q /\
    (0 <= bpp -> offset = Float (Float64.Fin (h + 3 * 2 ^ bpp) 0)) /\
    (bpp < -1074 -> offset = Float (Float64.Fin h 0)).
Proof.
  intros Hh Hb. unfold py_add, pow_term.
  rewrite to_float_small by lia. cbn [to_float Py.bind].
  destruct (Z.ltb_spec bpp (-1074)) as [Hu|Hu].
  - (* the palette term underflowed to 0.0 *)
    cbn [Float64.add]. change (Z.min 0 0) with 0. change (2 ^ (0 - 0)) with 1.
    replace (h * 1 + 0 * 1) with h by lia.
    change (Float64.round h 0) with (Float64.of_int h).
    rewrite of_int_small by lia.
    eexists. split; [reflexivity|]. split; [cbn [region_shape]; lia|].
    split; [|split; [lia | reflexivity]].
    cbn [num_value]. rewrite value_int, <- !Zle_Qle. lia.
  - destruct (Z.le_gt_cases 0 bpp) as [Hp|Hn].
    + (* an integral palette term *)
      cbn [Float64.add]. rewrite Z.min_l by lia. rewrite !Z.sub_0_r.
      change (2 ^ 0) with 1. rewrite Z.mul_1_r.
      assert (Hpow : 1 <= 2 ^ bpp <= 2 ^ 8).
      { split; [|apply Z.pow_le_mono_r; lia].
        assert (0 < 2 ^ bpp) by (apply Z.pow_pos_nonneg; lia). lia. }
      change (2 ^ 8) with 256 in Hpow.
      rewrite round_exact;
        [|unfold Float64.prec; lia | split; discriminate].
      eexists. split; [reflexivity|]. split; [cbn [region_shape]; lia|].
      split; [|split; [reflexivity | lia]].
      cbn [num_value]. rewrite value_int, <- !Zle_Qle. lia.
    + (* a fractional palette term *)
      cbn [Float64.add]. rewrite Z.min_r by lia.
      replace (bpp - bpp) with 0 by lia. change (2 ^ 0) with 1.
      rewrite Z.mul_1_r. replace (0 - bpp) with (- bpp) by lia.
      assert (HP : 2 <= 2 ^ (- bpp)).
      { change 2 with (2 ^ 1) at 1. apply Z.pow_le_mono_r; lia. }
      destruct (Z.eq_dec h 0) as [->|Hh0].
      * rewrite Z.mul_0_l, Z.add_0_l.
        rewrite round_exact;
          [|split; reflexivity
           |unfold Float64.emin, Float64.emax, Float64.prec; lia].
        eexists. split; [reflexivity|]. split; [cbn [region_shape]; lia|].
        split; [|split; lia].
        cbn [num_value Float64.value]. split.
        -- apply scaled_ge; lia.
        -- apply scaled_le; lia.
      * destruct (round_between (h * 2 ^ (- bpp) + 3) bpp h (h + 2))
          as (m' & e' & -> & Hm' & He' & Hlo & Hhi);
          [lia | lia | unfold Float64.prec; lia | nia |].
        unfold Float64.prec in Hm'.
        eexists. split; [reflexivity|]. split; [cbn [region_shape]; lia|].
        split; [|split; lia].
        cbn [num_value Float64.value]. split.
        -- apply scaled_ge; lia.
        -- apply Qle_trans with (inject_Z (h + 2)).
           ++ apply scaled_le; lia.
           ++ rewrite <- Zle_Qle. lia.
Qed.

(** ** Palette size and header region, by layout *)

Lemma palette_size_legacy dib :
  header_size dib = 12 -> (12 <= length dib)%nat ->
  palette_size dib =
  Ok (if bits_per_pixel 10 dib >? 8 then Int 0
      else Float (pow_term (bits_per_pixel 10 dib))).
Proof.
  intros Hh Hl. unfold palette_size.
  destruct (read_header_size dib ltac:(lia)) as [-> _]. cbn [Py.bind].
  rewrite Hh. change (12 =? 12) with true. cbv iota.
  destruct (read_bits_per_pixel 10 dib ltac:(lia)) as [Hb _].
  change (10 + 2)%nat with 12%nat in Hb. rewrite Hb. cbn [Py.bind].
  destruct (Z.gtb_spec (bits_per_pixel 10 dib) 8); cbn [negb].
  - reflexivity.
  - apply pow_palette. lia.
Qed.

Lemma palette_size_modern dib :
  header_size dib <> 12 -> (36 <= length dib)%nat ->
  palette_size dib =
  Ok (if bits_per_pixel 14 dib >? 8 then Int (colors_used dib * 3)
      else Float (pow_term (bits_per_pixel 14 dib))).
Proof.
  intros Hh Hl. unfold palette_size.
  destruct (read_header_size dib ltac:(lia)) as [-> _]. cbn [Py.bind].
  destruct (Z.eqb_spec (header_size dib) 12); [contradiction|].
  destruct (read_bits_per_pixel 14 dib ltac:(lia)) as [Hb _].
  change (14 + 2)%nat with 16%nat in Hb. rewrite Hb. cbn [Py.bind].
  destruct (read_colors_used dib Hl) as [-> _]. cbn [Py.bind].
  destruct (Z.gtb_spec (bits_per_pixel 14 dib) 8).
  - reflexivity.
  - apply pow_palette. lia.
Qed.

Lemma required_length_cases dib :
  (required_length dib <= length dib)%nat ->
  (header_size dib = 12 /\ (12 <= length dib)%nat) \/
  (header_size dib <> 12 /\ (36 <= length dib)%nat).
Proof.
  unfold required_length. destruct (Z.eqb_spec (header_size dib) 12); auto.
Qed.

Lemma header_region_unfold dib p :
  (4 <= length dib)%nat -> palette_size dib = Ok p ->
  header_region dib = py_add (Int (header_size dib)) p.
Proof.
  intros Hl Hp. unfold header_region.
  destruct (read_header_size dib Hl) as [-> _]. cbn [Py.bind].
  rewrite Hp. reflexivity.
Qed.

Lemma inject_Z_eq a b : (inject_Z a == inject_Z b)%Q -> a = b.
Proof. unfold Qeq. simpl. lia. Qed.

Lemma scaled_eq m e n :
  e <= 0 -> (inject_Z m * 2 ^ e == inject_Z n)%Q -> m = n * 2 ^ (- e).
Proof.
  intros He H. apply inject_Z_eq.
  rewrite inject_Z_mult, Qpow2_inject by lia. rewrite <- H.
  rewrite <- Qmult_assoc, <- Qpow2_add.
  replace (e + - e) with 0 by lia. simpl. ring.
Qed.

Lemma pow_term_integral h bpp n offset :
  0 <= h < 2 ^ 32 -> bpp <= 8 ->
  py_add (Int h) (Float (pow_term bpp)) = Ok offset ->
  (Float64.value (pow_term bpp) == inject_Z n)%Q ->
  (num_value offset == inject_Z (h + n))%Q.
Proof.
  intros Hh Hb Hadd Hn.
  destruct (add_header_pow h bpp Hh Hb) as (o & Ho & _ & _ & Hint & Hund).
  rewrite Hadd in Ho. injection Ho as <-.
  unfold pow_term in Hn. destruct (Z.ltb_spec bpp (-1074)) as [Hu|Hu].
  - rewrite (Hund Hu). cbn [num_value]. rewrite value_int.
    assert (n = 0).
    { symmetry. apply inject_Z_eq. rewrite <- Hn. simpl. ring. }
    subst n. rewrite Z.add_0_r. reflexivity.
  - destruct (Z.le_gt_cases 0 bpp) as [Hp|Hneg].
    + rewrite (Hint Hp). cbn [num_value]. rewrite value_int.
      assert (n = 3 * 2 ^ bpp).
      { symmetry. apply inject_Z_eq. rewrite <- Hn. cbn [Float64.value].
        rewrite inject_Z_mult, Qpow2_inject by lia. reflexivity. }
      subst n. reflexivity.
    + exfalso. simpl in Hn. apply scaled_eq in Hn; [|lia].
      assert (HP : 2 ^ (- bpp) = 2 * 2 ^ (- bpp - 1)).
      { rewrite <- Z.pow_succ_r by lia. f_equal. lia. }
      rewrite HP in Hn. lia.
Qed.

Lemma region_spec dib :
  (required_length dib <= length dib)%nat ->
  exists p offset,
    palette_size dib = Ok p /\
    header_region dib = Ok offset /\
    py_add (Int (header_size dib)) p = Ok offset /\
    region_shape offset /\
    (inject_Z (header_size dib) <= num_value offset)%Q /\
    (forall n, (num_value p == inject_Z n)%Q ->
               (num_value offset == inject_Z (header_size dib + n))%Q).
Proof.
  intros Hl.
  assert (H4 : (4 <= length dib)%nat).
  { unfold required_length in Hl. destruct (header_size dib =? 12); lia. }
  destruct (read_header_size dib H4) as [_ Hh].
  assert (Hpow : forall bpp, bpp <= 8 ->
            palette_size dib = Ok (Float (pow_term bpp)) ->
            exists p offset,
              palette_size dib = Ok p /\
              header_region dib = Ok offset /\
              py_add (Int (header_size dib)) p = Ok offset /\
              region_shape offset /\
              (inject_Z (header_size dib) <= num_value offset)%Q /\
              (forall n, (num_value p == inject_Z n)%Q ->
                 (num_value offset == inject_Z (header_size dib + n))%Q)).
  { intros bpp Hb Hp.
    destruct (add_header_pow (header_size dib) bpp Hh Hb)
      as (o & Ho & Hs & [Hlo _] & _).
    exists (Float (pow_term bpp)), o.
    rewrite (header_region_unfold dib _ H4 Hp).
    repeat split; try assumption.
    intros n Hn. eapply pow_term_integral; eassumption. }
  assert (Hint : forall z, 0 <= z < 2 ^ 34 ->
            palette_size dib = Ok (Int z) ->
            exists p offset,
              palette_size dib = Ok p /\
              header_region dib = Ok offset /\
              py_add (Int (header_size dib)) p = Ok offset /\
              region_shape offset /\
              (inject_Z (header_size dib) <= num_value offset)%Q /\
              (forall n, (num_value p == inject_Z n)%Q ->
                 (num_value offset == inject_Z (header_size dib + n))%Q)).
  { intros z Hz Hp.
    exists (Int z), (Int (header_size dib + z)).
    rewrite (header_region_unfold dib _ H4 Hp).
    repeat split; try reflexivity; try assumption.
    - cbn [region_shape]. lia.
    - cbn [region_shape]. lia.
    - cbn [num_value]. rewrite <- Zle_Qle. lia.
    - intros n Hn. cbn [num_value] in *. apply inject_Z_eq in Hn.
      subst. reflexivity. }
  destruct (required_length_cases dib Hl) as [[H12 L]|[H12 L]].
  - pose proof (palette_size_legacy dib H12 L) as Hp.
    destruct (Z.gtb_spec (bits_per_pixel 10 dib) 8).
    + apply (Hint 0); [lia | assumption].
    + apply (Hpow (bits_per_pixel 10 dib)); [lia | assumption].
  - pose proof (palette_size_modern dib H12 L) as Hp.
    destruct (read_colors_used dib L) as [_ Hc].
    destruct (Z.gtb_spec (bits_per_pixel 14 dib) 8).
    + apply (Hint (colors_used dib * 3)); [lia | assumption].
    + apply (Hpow (bits_per_pixel 14 dib)); [lia | assumption].
Qed.

(** ** Outcome of [dib_to_bmp] *)

Lemma pack_u32 v :
  0 <= v < 2 ^ 32 ->
  Struct.pack Struct.little Struct.fI v = Ok (le_split 4 v).
Proof.
  intros H. unfold Struct.pack.
  replace (Struct.in_range Struct.fI v) with true; [reflexivity|].
  symmetry. apply in_range_bounds.
  change (Struct.min_value Struct.fI) with 0.
  change (Struct.max_value Struct.fI) with (2 ^ 32 - 1). lia.
Qed.

Lemma pack_u32_overflow v :
  2 ^ 32 <= v -> Struct.pack Struct.little Struct.fI v = Raise struct_error.
Proof.
  intros H. unfold Struct.pack.
  destruct (Struct.in_range Struct.fI v) eqn:E; [|reflexivity].
  apply in_range_bounds in E.
  change (Struct.max_value Struct.fI) with (2 ^ 32 - 1) in E. lia.
Qed.

Lemma aligned_fits offset r :
  (inject_Z 0 <= num_value offset)%Q ->
  (num_value offset <= inject_Z (2 ^ 32 - 16))%Q ->
  r mod 4 = 0 ->
  (num_value offset <= inject_Z r /\ inject_Z r < num_value offset + 4)%Q ->
  0 <= r <= 2 ^ 32 - 16.
Proof.
  intros H0 Hu Hmod [Hle Hlt].
  assert (H1 : (inject_Z 0 <= inject_Z r)%Q) by (eapply Qle_trans; eassumption).
  rewrite <- Zle_Qle in H1.
  assert (H2 : (inject_Z r < inject_Z (2 ^ 32 - 16 + 4))%Q).
  { rewrite inject_Z_plus. change (inject_Z 4) with 4%Q.
    eapply Qlt_le_trans; [exact Hlt|]. lra. }
  rewrite <- Zlt_Qlt in H2.
  apply Z.mod_divide in Hmod; [|lia]. destruct Hmod as [c ->]. lia.
Qed.

Lemma aligned_overflows offset r :
  (inject_Z (2 ^ 32 - 16) < num_value offset)%Q ->
  r mod 4 = 0 ->
  (num_value offset <= inject_Z r)%Q ->
  2 ^ 32 <= 14 + r.
Proof.
  intros Hu Hmod Hle.
  assert (H2 : (inject_Z (2 ^ 32 - 16) < inject_Z r)%Q)
    by (eapply Qlt_le_trans; eassumption).
  rewrite <- Zlt_Qlt in H2.
  apply Z.mod_divide in Hmod; [|lia]. destruct Hmod as [c ->]. lia.
Qed.

Lemma dib_to_bmp_succeeds dib offset :
  (required_length dib <= length dib)%nat ->
  header_region dib = Ok offset ->
  (num_value offset <= inject_Z (2 ^ 32 - 16))%Q ->
  14 + len dib < 2 ^ 32 ->
  exists r,
    align4 offset = Ok r /\ r mod 4 = 0 /\ 0 <= r <= 2 ^ 32 - 16 /\
    (num_value offset <= inject_Z r /\ inject_Z r < num_value offset + 4)%Q /\
    dib_to_bmp dib =
    Ok (magic_BM ++ le_split 4 (14 + len dib) ++ four_zero_bytes ++
        le_split 4 (14 + r) ++ dib).
Proof.
  intros Hl Hreg Hfit Hlen.
  destruct (region_spec dib Hl) as (p & o & _ & Ho & _ & Hshape & Hlo & _).
  rewrite Hreg in Ho. injection Ho as <-.
  destruct (align4_spec offset Hshape) as (r & Hr & Hmod & Hv).
  assert (H4 : (4 <= length dib)%nat).
  { unfold required_length in Hl. destruct (header_size dib =? 12); lia. }
  destruct (read_header_size dib H4) as [_ Hh].
  assert (Hr0 : 0 <= r <= 2 ^ 32 - 16).
  { apply (aligned_fits offset); try assumption.
    eapply Qle_trans; [|exact Hlo]. rewrite <- Zle_Qle. lia. }
  exists r. repeat split; try assumption; try lia; try apply Hv.
  rewrite dib_to_bmp_stages, Hreg. cbn [Py.bind]. rewrite Hr. cbn [Py.bind].
  rewrite pack_u32 by lia. cbn [Py.bind].
  rewrite pack_u32 by (unfold len in *; lia). reflexivity.
Qed.

Lemma dib_to_bmp_overflows dib offset :
  (required_length dib <= length dib)%nat ->
  header_region dib = Ok offset ->
  (inject_Z (2 ^ 32 - 16) < num_value offset)%Q \/ 2 ^ 32 <= 14 + len dib ->
  dib_to_bmp dib = Raise struct_error.
Proof.
  intros Hl Hreg Hbig.
  destruct (region_spec dib Hl) as (p & o & _ & Ho & _ & Hshape & Hlo & _).
  rewrite Hreg in Ho. injection Ho as <-.
  destruct (align4_spec offset Hshape) as (r & Hr & Hmod & Hv & _).
  rewrite dib_to_bmp_stages, Hreg. cbn [Py.bind]. rewrite Hr. cbn [Py.bind].
  destruct (Z.le_gt_cases (2 ^ 32) (14 + r)) as [Hover|Hok].
  - rewrite pack_u32_overflow by assumption. reflexivity.
  - destruct Hbig as [Hbig|Hbig].
    + pose proof (aligned_overflows offset r Hbig Hmod Hv). lia.
    + assert (H4 : (4 <= length dib)%nat).
      { unfold required_length in Hl. destruct (header_size dib =? 12); lia. }
      destruct (read_header_size dib H4) as [_ Hh].
      assert (H0 : (inject_Z 0 <= inject_Z r)%Q).
      { eapply Qle_trans; [|exact Hv]. eapply Qle_trans; [|exact Hlo].
        rewrite <- Zle_Qle. lia. }
      rewrite <- Zle_Qle in H0.
      rewrite pack_u32 by lia. cbn [Py.bind].
      rewrite pack_u32_overflow by assumption. reflexivity.
Qed.

Lemma dib_to_bmp_short dib :
  (length dib < required_length dib)%nat ->
  dib_to_bmp dib = Raise struct_error.
Proof.
  intros Hl. unfold dib_to_bmp.
  destruct (Nat.lt_ge_cases (length dib) 4) as [H4|H4].
  - rewrite unpack_wrong_size; [reflexivity|].
    rewrite length_slice. cbv [Struct.size]. lia.
  - destruct (read_header_size dib H4) as [-> _]. cbn [Py.bind].
    unfold required_length in Hl.
    destruct (header_size dib =? 12).
    + rewrite unpack_wrong_size; [reflexivity|].
      rewrite length_slice. cbv [Struct.size]. lia.
    + destruct (Nat.lt_ge_cases (length dib) 16) as [H16|H16].
      * rewrite unpack_wrong_size; [reflexivity|].
        rewrite length_slice. cbv [Struct.size]. lia.
      * destruct (read_bits_per_pixel 14 dib ltac:(lia)) as [Hb _].
        change (14 + 2)%nat with 16%nat in Hb. rewrite Hb. cbn [Py.bind].
        rewrite unpack_wrong_size; [reflexivity|].
        rewrite length_slice. cbv [Struct.size]. lia.
Qed.

(** * The claims *)

(** Evaluate the closed left-hand side of an equation [H]. *)
Ltac eval_lhs H :=
  match type of H with
  | ?l = _ => let v := eval vm_compute in l in change l with v in H
  end.

(** ** Primitive codec *)

(** C9: for every integer [v] in the range of the target width and
    signedness (8-bit unsigned, 16-bit and 32-bit signed or unsigned) and
    for both byte orders, encoding [v] succeeds and decoding the result
    with the same byte order returns [v]. *)
Theorem primitive_codec_round_trip (be : bool) (v : Z) :
  (0 <= v <= 255 ->
   (b <- py_int2byte v ;; byte2py_int b) = Ok v) /\
  (0 <= v <= 65535 ->
   (b <- py_int2word v be ;; word2py_int b be) = Ok v) /\
  (-32768 <= v <= 32767 ->
   (b <- py_int2signed_word v be ;; signed_word2py_int b be) = Ok v) /\
  (0 <= v <= 4294967295 ->
   (b <- py_int2dword v be ;; dword2py_int b be) = Ok v) /\
  (-2147483648 <= v <= 2147483647 ->
   (b <- py_int2signed_dword v be ;; signed_dword2py_int b be) = Ok v).
Proof.
  assert (H : forall o c, Struct.min_value c <= v <= Struct.max_value c ->
            (b <- Struct.pack o c v ;; Struct.unpack o c b) = Ok v).
  { intros o c Hr. apply in_range_bounds in Hr.
    destruct (unpack_pack o c v Hr) as (b & -> & _ & Hu). exact Hu. }
  repeat split; intros Hv; apply H; exact Hv.
Qed.

Lemma primitive_codec_round_trip_witness :
  (b <- py_int2byte 200 ;; byte2py_int b) = Ok 200 /\
  (b <- py_int2word 200 true ;; word2py_int b true) = Ok 200 /\
  (b <- py_int2signed_word 200 true ;; signed_word2py_int b true) = Ok 200 /\
  (b <- py_int2dword 200 true ;; dword2py_int b true) = Ok 200 /\
  (b <- py_int2signed_dword 200 true ;; signed_dword2py_int b true) = Ok 200.
Proof.
  destruct (primitive_codec_round_trip true 200) as (H1 & H2 & H3 & H4 & H5).
  split; [apply H1; lia|]. split; [apply H2; lia|].
  split; [apply H3; lia|]. split; [apply H4; lia | apply H5; lia].
Defined.

(** ** RIFF chunk sizing *)

(** C8: [get_chunk_size] decodes its 4 bytes as a little-endian unsigned
    32-bit integer and pads odd sizes: the encoding of [2n] yields [2n] and
    the encoding of [2n+1] yields [2n+2]; on every 4-byte input the result
    is even, non-negative and at least the decoded value. *)
Theorem get_chunk_size_even_padding :
  (forall n, 0 <= n < 2 ^ 31 ->
     exists b0 b1,
       py_int2dword (2 * n) false = Ok b0 /\ get_chunk_size b0 = Ok (2 * n) /\
       py_int2dword (2 * n + 1) false = Ok b1 /\
       get_chunk_size b1 = Ok (2 * n + 2)) /\
  (forall size_field, length size_field = 4%nat ->
     exists raw r,
       dword2py_int size_field false = Ok raw /\
       raw = le_combine size_field /\
       get_chunk_size size_field = Ok r /\
       Z.even r = true /\ 0 <= raw <= r /\ r <= raw + 1).
Proof.
  split.
  - intros n Hn.
    assert (R0 : Struct.in_range Struct.fI (2 * n) = true).
    { apply in_range_bounds.
      change (Struct.min_value Struct.fI) with 0.
      change (Struct.max_value Struct.fI) with (2 ^ 32 - 1). lia. }
    assert (R1 : Struct.in_range Struct.fI (2 * n + 1) = true).
    { apply in_range_bounds.
      change (Struct.min_value Struct.fI) with 0.
      change (Struct.max_value Struct.fI) with (2 ^ 32 - 1). lia. }
    destruct (unpack_pack Struct.little Struct.fI _ R0) as (b0 & P0 & _ & U0).
    destruct (unpack_pack Struct.little Struct.fI _ R1) as (b1 & P1 & _ & U1).
    exists b0, b1. unfold py_int2dword, get_chunk_size, dword2py_int.
    cbn [order_of]. rewrite P0, P1, U0, U1. cbn [Py.bind].
    replace ((2 * n) mod 2) with 0 by (symmetry; rewrite Z.mul_comm; apply Z.mod_mul; lia).
    replace ((2 * n + 1) mod 2) with 1.
    2:{ symmetry. rewrite Z.add_comm, Z.mul_comm, Z.mod_add by lia. reflexivity. }
    repeat split. simpl. f_equal. lia.
  - intros size_field Hl.
    destruct (unpack_u32 size_field Hl) as [Hu Hb].
    exists (le_combine size_field).
    unfold get_chunk_size, dword2py_int. cbn [order_of]. rewrite Hu.
    cbn [Py.bind]. set (raw := le_combine size_field) in *.
    pose proof (Z.mod_pos_bound raw 2 ltac:(lia)) as Hm.
    pose proof (Z.div_mod raw 2 ltac:(lia)) as Hd.
    destruct (Z.eqb_spec (raw mod 2) 0) as [E|E].
    + exists raw. repeat split; try lia.
      rewrite Hd, E, Z.add_0_r, Z.even_mul. reflexivity.
    + exists (raw + 1). repeat split; try lia.
      replace (raw + 1) with (2 * (raw / 2 + 1)) by lia.
      rewrite Z.even_mul. reflexivity.
Qed.

Lemma get_chunk_size_even_padding_witness :
  (exists b0 b1,
     py_int2dword (2 * 3) false = Ok b0 /\ get_chunk_size b0 = Ok (2 * 3) /\
     py_int2dword (2 * 3 + 1) false = Ok b1 /\
     get_chunk_size b1 = Ok (2 * 3 + 2)) /\
  (exists raw r,
     dword2py_int (le_split 4 7) false = Ok raw /\
     raw = le_combine (le_split 4 7) /\
     get_chunk_size (le_split 4 7) = Ok r /\
     Z.even r = true /\ 0 <= raw <= r /\ r <= raw + 1).
Proof.
  destruct get_chunk_size_even_padding as [H1 H2].
  split; [apply (H1 3); lia | apply (H2 (le_split 4 7)); reflexivity].
Defined.

(** ** [bmp_to_dib] *)

(** C5, as amended: [bmp_to_dib] has no length precondition and no error:
    on every input it returns exactly the bytes of [bmp] from offset 14 to
    the end (byte [i] of the result is byte [14 + i] of [bmp]), and it
    performs no check on the input. *)
Theorem bmp_to_dib_total (bmp : bytes) :
  exists dib,
    bmp_to_dib bmp = Ok dib /\
    length dib = (length bmp - 14)%nat /\
    forall i, nth_error dib i = nth_error bmp (14 + i).
Proof.
  exists (skipn 14 bmp). split; [reflexivity|].
  split; [apply length_skipn|]. intros i. apply nth_error_skipn.
Qed.

(** C5, as stated, fails on the empty input: no error is raised for an
    input shorter than 14 bytes. *)
Lemma bmp_to_dib_no_length_error :
  bmp_to_dib [] = Ok [] /\
  ~ (forall bmp, (length bmp < 14)%nat -> exists e, bmp_to_dib bmp = Raise e).
Proof.
  split; [reflexivity|].
  intros H. destruct (H [] ltac:(simpl; lia)) as [e He]. discriminate He.
Qed.

(** C10: for every [bmp] of at most 14 bytes, [bmp_to_dib bmp] returns the
    empty byte string and raises nothing. *)
Theorem bmp_to_dib_short (bmp : bytes) :
  (length bmp <= 14)%nat -> bmp_to_dib bmp = Ok [].
Proof.
  intros H. unfold bmp_to_dib, slice_from. rewrite skipn_all2 by assumption.
  reflexivity.
Qed.

Lemma bmp_to_dib_short_witness :
  bmp_to_dib (magic_BM ++ le_split 4 14 ++ four_zero_bytes ++ le_split 4 14) =
  Ok [].
Proof.
  apply bmp_to_dib_short. simpl. lia.
Defined.

(** ** [dib_to_bmp] *)

Lemma pack_length o c v b :
  Struct.pack o c v = Ok b -> length b = Struct.size c.
Proof.
  unfold Struct.pack. destruct (Struct.in_range c v); [|discriminate].
  intros H. injection H as <-. rewrite length_arrange. apply length_le_split.
Qed.

(** Whatever [dib_to_bmp] returns is a 14-byte header followed by the input,
    untouched. *)
Lemma dib_to_bmp_header dib bmp :
  dib_to_bmp dib = Ok bmp ->
  exists hdr, length hdr = 14%nat /\ bmp = hdr ++ dib.
Proof.
  rewrite dib_to_bmp_stages.
  destruct (header_region dib) as [o|]; [|discriminate]. cbn [Py.bind].
  destruct (align4 o) as [r|]; [|discriminate]. cbn [Py.bind].
  destruct (Struct.pack Struct.little Struct.fI (14 + r)) as [po|] eqn:Hpo;
    [|discriminate]. cbn [Py.bind].
  destruct (Struct.pack Struct.little Struct.fI (14 + len dib)) as [fs|] eqn:Hfs;
    [|discriminate]. cbn [Py.bind].
  intros H. injection H as <-.
  apply pack_length in Hpo, Hfs.
  exists (magic_BM ++ fs ++ four_zero_bytes ++ po).
  split.
  - rewrite !length_app, Hpo, Hfs. reflexivity.
  - rewrite <- !app_assoc. reflexivity.
Qed.

Lemma skipn_header (hdr dib : bytes) :
  length hdr = 14%nat -> skipn 14 (hdr ++ dib) = dib.
Proof.
  intros H. rewrite skipn_app, H, skipn_all2 by lia. reflexivity.
Qed.

Lemma slice_middle i j (a b c : bytes) :
  length a = i -> length b = (j - i)%nat -> slice i j (a ++ b ++ c) = b.
Proof.
  intros Ha Hb. unfold slice.
  rewrite skipn_app, Ha, Nat.sub_diag, skipn_all2 by lia. cbn [skipn app].
  rewrite firstn_app, Hb, Nat.sub_diag, firstn_all2 by lia.
  cbn [firstn]. apply app_nil_r.
Qed.

Lemma stored_fields (dib : bytes) v w :
  0 <= v < 2 ^ 32 -> 0 <= w < 2 ^ 32 ->
  stored_file_size
    (magic_BM ++ le_split 4 v ++ four_zero_bytes ++ le_split 4 w ++ dib) = v /\
  stored_pixel_offset
    (magic_BM ++ le_split 4 v ++ four_zero_bytes ++ le_split 4 w ++ dib) = w.
Proof.
  intros Hv Hw. unfold stored_file_size, stored_pixel_offset. split.
  - rewrite slice_middle by (rewrite ?length_le_split; reflexivity).
    rewrite le_combine_split. apply Z.mod_small. exact Hv.
  - replace (magic_BM ++ le_split 4 v ++ four_zero_bytes ++ le_split 4 w ++ dib)
      with ((magic_BM ++ le_split 4 v ++ four_zero_bytes) ++ le_split 4 w ++ dib)
      by (rewrite <- !app_assoc; reflexivity).
    rewrite slice_middle
      by (rewrite ?length_app, ?length_le_split; reflexivity).
    rewrite le_combine_split. apply Z.mod_small. exact Hw.
Qed.

Lemma valid_dib_long_enough dib :
  valid_dib dib -> (required_length dib <= length dib)%nat.
Proof.
  unfold valid_dib, required_length.
  destruct (Z.eqb_spec (header_size dib) 12); lia.
Qed.

(** C1, as amended: for every valid DIB [d] of either header layout
    (header size 12, or 40 and more, long enough for the layout's fields)
    whose file size and pixel offset fit the 32-bit header fields,
    [dib_to_bmp] returns a 14-byte header followed by [d] unchanged, and
    [bmp_to_dib] returns exactly [d] from it.  On every other valid DIB
    [dib_to_bmp] raises [struct.error] and there is nothing to unwrap. *)
Theorem bmp_to_dib_dib_to_bmp (d : bytes) :
  valid_dib d ->
  (fits_32_bits d ->
   exists hdr,
     length hdr = 14%nat /\
     dib_to_bmp d = Ok (hdr ++ d) /\
     bmp_to_dib (hdr ++ d) = Ok d) /\
  (~ fits_32_bits d -> dib_to_bmp d = Raise struct_error).
Proof.
  intros Hv. apply valid_dib_long_enough in Hv. split.
  - intros [Hlen (offset & Hreg & Hfit)].
    destruct (dib_to_bmp_succeeds d offset Hv Hreg Hfit Hlen)
      as (r & _ & _ & _ & _ & Hbmp).
    destruct (dib_to_bmp_header d _ Hbmp) as (hdr & Hh & E).
    exists hdr. split; [assumption|]. split.
    + rewrite Hbmp, E. reflexivity.
    + unfold bmp_to_dib, slice_from. rewrite skipn_header by assumption.
      reflexivity.
  - intros Hno.
    destruct (region_spec d Hv) as (p & o & _ & Ho & _).
    apply (dib_to_bmp_overflows d o Hv Ho).
    destruct (Qlt_le_dec (inject_Z (2 ^ 32 - 16)) (num_value o)) as [Hbig|Hfit];
      [left; exact Hbig|].
    destruct (Z.le_gt_cases (2 ^ 32) (14 + len d)) as [Hbig|Hlen];
      [right; exact Hbig|].
    exfalso. apply Hno. split; [lia|]. exists o. split; assumption.
Qed.

Lemma bmp_to_dib_dib_to_bmp_witness :
  (exists hdr,
     length hdr = 14%nat /\
     dib_to_bmp (legacy_dib 1) = Ok (hdr ++ legacy_dib 1) /\
     bmp_to_dib (hdr ++ legacy_dib 1) = Ok (legacy_dib 1)) /\
  (exists hdr,
     length hdr = 14%nat /\
     dib_to_bmp (modern_dib 40 24 0) = Ok (hdr ++ modern_dib 40 24 0) /\
     bmp_to_dib (hdr ++ modern_dib 40 24 0) = Ok (modern_dib 40 24 0)).
Proof.
  split.
  - destruct (bmp_to_dib_dib_to_bmp (legacy_dib 1)) as [H _].
    + left. split; [vm_compute; reflexivity | vm_compute; lia].
    + apply H. split; [vm_compute; reflexivity|].
      eexists. split; [vm_compute; reflexivity | vm_compute; discriminate].
  - destruct (bmp_to_dib_dib_to_bmp (modern_dib 40 24 0)) as [H _].
    + right. split; [vm_compute; discriminate | vm_compute; lia].
    + apply H. split; [vm_compute; reflexivity|].
      eexists. split; [vm_compute; reflexivity | vm_compute; discriminate].
Defined.

(** C1, as stated, fails: the 40-byte modern header with 24 bits per pixel
    and [colors_used = 0xFFFFFFFF] is a valid DIB, long enough for its
    layout, and [dib_to_bmp] raises [struct.error] on it, because the pixel
    offset [14 + 40 + 3 * 0xFFFFFFFF] does not fit the 32-bit field. *)
Lemma round_trip_needs_32_bit_fields :
  valid_dib (modern_dib 40 24 4294967295) /\
  dib_to_bmp (modern_dib 40 24 4294967295) = Raise struct_error /\
  ~ (forall d, valid_dib d ->
       exists bmp, dib_to_bmp d = Ok bmp /\ bmp_to_dib bmp = Ok d).
Proof.
  assert (Hv : valid_dib (modern_dib 40 24 4294967295)).
  { right. split; [vm_compute; discriminate | vm_compute; lia]. }
  split; [exact Hv|]. split; [vm_compute; reflexivity|].
  intros H. destruct (H _ Hv) as (bmp & Hb & _).
  eval_lhs Hb. discriminate Hb.
Qed.

Lemma dib_to_bmp_with_palette dib p :
  (4 <= length dib)%nat -> palette_size dib = Ok p ->
  dib_to_bmp dib =
  (offset <- py_add (Int (header_size dib)) p ;;
   q <- py_truediv offset float_4 ;;
   c <- math_ceil q ;;
   pixel_offset <- Struct.pack Struct.little Struct.fI (14 + c * 4) ;;
   file_size <- Struct.pack Struct.little Struct.fI (14 + len dib) ;;
   Ok (magic_BM ++ file_size ++ four_zero_bytes ++ pixel_offset ++ dib)).
Proof.
  intros H4 Hp.
  rewrite dib_to_bmp_stages, (header_region_unfold dib p H4 Hp).
  unfold align4.
  destruct (py_add (Int (header_size dib)) p) as [o|]; [|reflexivity].
  cbn [Py.bind].
  destruct (py_truediv o float_4) as [q|]; [|reflexivity]. cbn [Py.bind].
  destruct (math_ceil q); reflexivity.
Qed.

(** C2, as amended: [dib_to_bmp] computes the palette size [p] from the
    header as follows and continues with [header_size + p].  With a header
    size (first 4 bytes, little-endian unsigned) of 12, the bits per pixel
    are the signed 16-bit little-endian value at offset 10 and the palette
    size is [2^bpp * 3] when [bpp <= 8], else 0.  With any other header
    size, the bits per pixel are read at offset 14 and the colors used,
    unsigned 32-bit little-endian, at offset 32; the palette size is
    [colors_used * 3] when [bpp > 8], else [2^bpp * 3].  [2^bpp * 3] is
    computed by [math.pow] in double precision: it is the exact rational
    [3 * 2^bpp] for [-1074 <= bpp <= 8], and 0 for [bpp < -1074], where
    the power underflows. *)
Theorem palette_size_by_layout (dib : bytes) :
  (required_length dib <= length dib)%nat ->
  exists p,
    palette_size dib = Ok p /\
    dib_to_bmp dib =
    (offset <- py_add (Int (header_size dib)) p ;;
     q <- py_truediv offset float_4 ;;
     c <- math_ceil q ;;
     pixel_offset <- Struct.pack Struct.little Struct.fI (14 + c * 4) ;;
     file_size <- Struct.pack Struct.little Struct.fI (14 + len dib) ;;
     Ok (magic_BM ++ file_size ++ four_zero_bytes ++ pixel_offset ++ dib)) /\
    (header_size dib = 12 ->
     let bpp := bits_per_pixel 10 dib in
     (8 < bpp -> p = Int 0) /\
     (bpp <= 8 ->
      num_finite p = true /\
      (-1074 <= bpp -> (num_value p == 3 * 2 ^ bpp)%Q) /\
      (bpp < -1074 -> (num_value p == 0)%Q))) /\
    (header_size dib <> 12 ->
     let bpp := bits_per_pixel 14 dib in
     (8 < bpp -> p = Int (colors_used dib * 3)) /\
     (bpp <= 8 ->
      num_finite p = true /\
      (-1074 <= bpp -> (num_value p == 3 * 2 ^ bpp)%Q) /\
      (bpp < -1074 -> (num_value p == 0)%Q))).
Proof.
  intros Hl.
  assert (H4 : (4 <= length dib)%nat).
  { unfold required_length in Hl. destruct (header_size dib =? 12); lia. }
  assert (Hterm : forall bpp,
            num_finite (Float (pow_term bpp)) = true /\
            (-1074 <= bpp ->
             (num_value (Float (pow_term bpp)) == 3 * 2 ^ bpp)%Q) /\
            (bpp < -1074 -> (num_value (Float (pow_term bpp)) == 0)%Q)).
  { intros bpp. unfold pow_term.
    destruct (Z.ltb_spec bpp (-1074)); (split; [reflexivity|]);
      split; intros; try lia; reflexivity. }
  destruct (required_length_cases dib Hl) as [[H12 L]|[H12 L]].
  - pose proof (palette_size_legacy dib H12 L) as Hp.
    eexists. split; [exact Hp|].
    split; [apply dib_to_bmp_with_palette; assumption|].
    split; [|intros Hne; contradiction].
    intros _ bpp. fold bpp.
    destruct (Z.gtb_spec bpp 8); split; intros; try lia;
      [reflexivity | apply Hterm].
  - pose proof (palette_size_modern dib H12 L) as Hp.
    eexists. split; [exact Hp|].
    split; [apply dib_to_bmp_with_palette; assumption|].
    split; [intros He; contradiction|].
    intros _ bpp. fold bpp.
    destruct (Z.gtb_spec bpp 8); split; intros; try lia;
      [reflexivity | apply Hterm].
Qed.

Lemma palette_size_by_layout_witness :
  (exists p,
     palette_size (legacy_dib 1) = Ok p /\
     dib_to_bmp (legacy_dib 1) =
     (offset <- py_add (Int (header_size (legacy_dib 1))) p ;;
      q <- py_truediv offset float_4 ;;
      c <- math_ceil q ;;
      pixel_offset <- Struct.pack Struct.little Struct.fI (14 + c * 4) ;;
      file_size <-
        Struct.pack Struct.little Struct.fI (14 + len (legacy_dib 1)) ;;
      Ok (magic_BM ++ file_size ++ four_zero_bytes ++ pixel_offset ++
          legacy_dib 1)) /\
     num_finite p = true /\ (num_value p == 3 * 2 ^ 1)%Q) /\
  (exists p,
     palette_size (modern_dib 40 24 5) = Ok p /\ p = Int (5 * 3)).
Proof.
  split.
  - destruct (palette_size_by_layout (legacy_dib 1))
      as (p & Hp & Hd & Hleg & _); [vm_compute; lia|].
    exists p. split; [exact Hp|]. split; [exact Hd|].
    destruct Hleg as [_ Hlow]; [vm_compute; reflexivity|].
    destruct Hlow as (Hf & Hv & _); [vm_compute; discriminate|].
    split; [exact Hf|]. apply Hv. vm_compute. discriminate.
  - destruct (palette_size_by_layout (modern_dib 40 24 5))
      as (p & Hp & _ & _ & Hmod); [vm_compute; lia|].
    exists p. split; [exact Hp|].
    destruct Hmod as [Hhigh _]; [vm_compute; discriminate|].
    apply Hhigh. vm_compute. reflexivity.
Defined.

(** C2, as stated, fails below the range of a float: with a header size of
    12 and [bpp = -1100] the source's [math.pow(2, bpp) * 3] is [0.0], not
    [3 * 2^-1100]. *)
Lemma palette_power_underflows :
  header_size (legacy_dib (-1100)) = 12 /\
  bits_per_pixel 10 (legacy_dib (-1100)) = -1100 /\
  palette_size (legacy_dib (-1100)) = Ok (Float (Float64.Fin 0 0)) /\
  ~ (forall dib p,
       header_size dib = 12 -> (12 <= length dib)%nat ->
       bits_per_pixel 10 dib <= 8 -> palette_size dib = Ok p ->
       (num_value p == 3 * 2 ^ bits_per_pixel 10 dib)%Q).
Proof.
  split; [vm_compute; reflexivity|]. split; [vm_compute; reflexivity|].
  split; [vm_compute; reflexivity|].
  intros H.
  assert (E : (num_value (Float (Float64.Fin 0 0)) ==
               3 * 2 ^ bits_per_pixel 10 (legacy_dib (-1100)))%Q).
  { apply H; [vm_compute; reflexivity | vm_compute; lia
             | vm_compute; discriminate | vm_compute; reflexivity]. }
  vm_compute in E. discriminate E.
Qed.

(** Below [2^-1074] the power underflows: the palette term is [0.0]. *)
Lemma palette_size_underflow bpp :
  bpp < -1074 ->
  (p <- math_pow2 bpp ;; py_mul p (Int 3)) = Ok (Float (Float64.Fin 0 0)).
Proof.
  intros H. rewrite pow_palette by lia. unfold pow_term.
  destruct (Z.ltb_spec bpp (-1074)); [reflexivity | lia].
Qed.



(** The float sum can absorb a fractional palette term: with a header size
    of 12 and [bpp = -60] the region is [12.0] and the pixel offset 26. *)
Example fractional_palette_absorbed :
  palette_size (legacy_dib (-60)) = Ok (Float (Float64.Fin 3 (-60))) /\
  (exists offset, header_region (legacy_dib (-60)) = Ok offset /\
                  (num_value offset == 12)%Q) /\
  exists bmp, dib_to_bmp (legacy_dib (-60)) = Ok bmp /\
              stored_pixel_offset bmp = 26.
Proof.
  split; [vm_compute; reflexivity|]. split.
  - eexists. split; vm_compute; reflexivity.
  - eexists. split; vm_compute; reflexivity.
Qed.

(** C4, as amended: [dib_to_bmp] raises [struct.error] (the module has no
    MalformedHeader) and returns nothing when [dib] is shorter than what
    its layout makes the source read: 4 bytes for the header size, 12 when
    the header size is 12, 36 for every other header size.  The header
    size is not validated: every value other than 12 is read as the modern
    layout, and a long enough [dib] fails only, again with [struct.error],
    when the pixel offset or the file size exceeds 32 bits. *)
Theorem dib_to_bmp_errors (dib : bytes) :
  ((length dib < required_length dib)%nat ->
   dib_to_bmp dib = Raise struct_error) /\
  ((required_length dib <= length dib)%nat ->
   exists offset,
     header_region dib = Ok offset /\
     ((num_value offset <= inject_Z (2 ^ 32 - 16))%Q ->
      14 + len dib < 2 ^ 32 ->
      exists bmp, dib_to_bmp dib = Ok bmp) /\
     ((inject_Z (2 ^ 32 - 16) < num_value offset)%Q \/ 2 ^ 32 <= 14 + len dib ->
      dib_to_bmp dib = Raise struct_error)).
Proof.
  split; [apply dib_to_bmp_short|].
  intros Hl.
  destruct (region_spec dib Hl) as (p & o & _ & Ho & _).
  exists o. split; [exact Ho|]. split.
  - intros Hfit Hlen.
    destruct (dib_to_bmp_succeeds dib o Hl Ho Hfit Hlen) as (r & _ & _ & _ & _ & H).
    eexists. exact H.
  - apply dib_to_bmp_overflows; assumption.
Qed.

Lemma dib_to_bmp_errors_witness :
  dib_to_bmp (firstn 35 (modern_dib 40 24 0)) = Raise struct_error /\
  (exists bmp, dib_to_bmp (modern_dib 20 24 0) = Ok bmp) /\
  dib_to_bmp (modern_dib 4294967295 24 0) = Raise struct_error.
Proof.
  split; [|split].
  - destruct (dib_to_bmp_errors (firstn 35 (modern_dib 40 24 0))) as [H _].
    apply H. vm_compute. lia.
  - destruct (dib_to_bmp_errors (modern_dib 20 24 0)) as [_ H].
    destruct H as (o & Ho & H & _); [vm_compute; lia|].
    apply H; [|vm_compute; reflexivity].
    vm_compute in Ho. injection Ho as <-. vm_compute. discriminate.
  - destruct (dib_to_bmp_errors (modern_dib 4294967295 24 0)) as [_ H].
    destruct H as (o & Ho & _ & H); [vm_compute; lia|].
    apply H. left. vm_compute in Ho. injection Ho as <-. vm_compute. reflexivity.
Defined.

(** C4, as stated, fails: a header size of 20 is neither 12 nor at least
    40, and [dib_to_bmp] returns a BMP for it. *)
Lemma unrecognized_header_size_accepted :
  header_size (modern_dib 20 24 0) = 20 /\
  (exists bmp, dib_to_bmp (modern_dib 20 24 0) = Ok bmp /\
               stored_pixel_offset bmp = 34) /\
  ~ (forall dib, header_size dib <> 12 -> header_size dib < 40 ->
                 exists e, dib_to_bmp dib = Raise e).
Proof.
  split; [vm_compute; reflexivity|]. split.
  - eexists. split; vm_compute; reflexivity.
  - intros H.
    destruct (H (modern_dib 20 24 0)) as [e He];
      [vm_compute; discriminate | vm_compute; reflexivity |].
    vm_compute in He. discriminate He.
Qed.




Lemma align4_int z :
  0 <= z < 2 ^ 53 -> align4 (Int z) = Ok (4 * ((z + 3) / 4)).
Proof.
  intros Hz.
  destruct (align4_spec (Int z) Hz) as (r & -> & Hmod & Hlo & Hhi).
  cbn [num_value] in Hlo, Hhi.
  rewrite <- Zle_Qle in Hlo.
  change 4%Q with (inject_Z 4) in Hhi.
  rewrite <- inject_Z_plus, <- Zlt_Qlt in Hhi.
  apply Z.mod_divide in Hmod; [|lia]. destruct Hmod as [c ->].
  f_equal. rewrite (Z.mul_comm c 4). f_equal.
  apply Z.div_unique with (r := z + 3 - 4 * c); lia.
Qed.

(** C7, as amended: for every DIB with a header size of 40 and 24 bits per
    pixel at offset 14, the palette size is [colors_used * 3], not 0; the
    header region is [40 + 3 * colors_used] and the emitted pixel offset is
    14 plus that, rounded up to a multiple of 4.  The pixel offset is 54
    exactly when [colors_used] is 0. *)
Theorem modern_24bpp_pixel_offset (dib : bytes) :
  header_size dib = 40 -> bits_per_pixel 14 dib = 24 ->
  (36 <= length dib)%nat -> 14 + len dib < 2 ^ 32 ->
  let c := colors_used dib in
  let pixel_offset := 14 + 4 * ((40 + c * 3 + 3) / 4) in
  palette_size dib = Ok (Int (c * 3)) /\
  header_region dib = Ok (Int (40 + c * 3)) /\
  (40 + c * 3 <= 2 ^ 32 - 16 ->
   dib_to_bmp dib =
   Ok (magic_BM ++ le_split 4 (14 + len dib) ++ four_zero_bytes ++
       le_split 4 pixel_offset ++ dib)) /\
  (pixel_offset = 54 <-> c = 0).
Proof.
  intros Hh Hb Hl Hlen c pixel_offset.
  assert (H12 : header_size dib <> 12) by lia.
  pose proof (palette_size_modern dib H12 Hl) as Hp.
  rewrite Hb in Hp. change (24 >? 8) with true in Hp. cbv iota in Hp.
  fold c in Hp.
  assert (Hreg : header_region dib = Ok (Int (40 + c * 3))).
  { rewrite (header_region_unfold dib _ ltac:(lia) Hp), Hh. reflexivity. }
  destruct (read_colors_used dib Hl) as [_ Hc]. fold c in Hc.
  split; [exact Hp|]. split; [exact Hreg|]. split.
  - intros Hfit.
    assert (Hreq : (required_length dib <= length dib)%nat).
    { unfold required_length. rewrite Hh. exact Hl. }
    destruct (dib_to_bmp_succeeds dib _ Hreq Hreg) as (r & Hr & _ & _ & _ & E);
      [cbn [num_value]; rewrite <- Zle_Qle; exact Hfit | exact Hlen |].
    rewrite align4_int in Hr by lia. injection Hr as <-. exact E.
  - unfold pixel_offset. split; intros H.
    + assert (E : (40 + c * 3 + 3) / 4 = 10) by lia.
      pose proof (Z.div_mod (40 + c * 3 + 3) 4 ltac:(lia)) as Hd.
      pose proof (Z.mod_pos_bound (40 + c * 3 + 3) 4 ltac:(lia)) as Hm.
      rewrite E in Hd. lia.
    + rewrite H. reflexivity.
Qed.

Lemma modern_24bpp_pixel_offset_witness :
  palette_size (modern_dib 40 24 0) = Ok (Int (0 * 3)) /\
  header_region (modern_dib 40 24 0) = Ok (Int (40 + 0 * 3)) /\
  dib_to_bmp (modern_dib 40 24 0) =
  Ok (magic_BM ++ le_split 4 (14 + len (modern_dib 40 24 0)) ++
      four_zero_bytes ++ le_split 4 54 ++ modern_dib 40 24 0).
Proof.
  destruct (modern_24bpp_pixel_offset (modern_dib 40 24 0))
    as (Hp & Hr & Hb & _);
    [vm_compute; reflexivity | vm_compute; reflexivity | vm_compute; lia
    | vm_compute; reflexivity |].
  split; [exact Hp|]. split; [exact Hr|].
  apply Hb. vm_compute. discriminate.
Defined.

(** C7, as stated, fails: with a header size of 40, 24 bits per pixel and
    [colors_used = 1] the palette size is 3, not 0, and the pixel offset is
    58, not 54. *)
Lemma colors_used_moves_pixel_offset :
  header_size (modern_dib 40 24 1) = 40 /\
  bits_per_pixel 14 (modern_dib 40 24 1) = 24 /\
  colors_used (modern_dib 40 24 1) = 1 /\
  palette_size (modern_dib 40 24 1) = Ok (Int 3) /\
  (exists bmp, dib_to_bmp (modern_dib 40 24 1) = Ok bmp /\
               stored_pixel_offset bmp = 58) /\
  ~ (forall dib bmp,
       header_size dib = 40 -> bits_per_pixel 14 dib = 24 ->
       dib_to_bmp dib = Ok bmp ->
       (exists p, palette_size dib = Ok p /\ (num_value p == 0)%Q) /\
       stored_pixel_offset bmp = 54).
Proof.
  split; [vm_compute; reflexivity|]. split; [vm_compute; reflexivity|].
  split; [vm_compute; reflexivity|]. split; [vm_compute; reflexivity|].
  split.
  - eexists. split; vm_compute; reflexivity.
  - intros H.
    edestruct (H (modern_dib 40 24 1)) as [_ Hpo];
      [vm_compute; reflexivity | vm_compute; reflexivity
      | vm_compute; reflexivity |].
    eval_lhs Hpo. discriminate Hpo.
Qed.

(** * Further properties *)

(** ** Primitive codec: the other direction, ranges and byte weights *)

Lemma pack_unpack o c data :
  length data = Struct.size c ->
  exists v,
    Struct.unpack o c data = Ok v /\
    Struct.min_value c <= v <= Struct.max_value c /\
    Struct.pack o c v = Ok data.
Proof.
  intros Hl. unfold Struct.unpack. rewrite Hl, Nat.eqb_refl.
  pose proof (le_combine_bound (Struct.arrange o data)) as Hb.
  rewrite length_arrange, Hl in Hb.
  set (u := le_combine (Struct.arrange o data)) in *.
  assert (Hbits : 2 ^ (8 * Z.of_nat (Struct.size c)) = 2 ^ Struct.bits c)
    by reflexivity.
  rewrite Hbits in Hb.
  assert (Hpos : 0 < Struct.bits c) by (destruct c; reflexivity).
  assert (Hhalf : 2 ^ Struct.bits c = 2 * 2 ^ (Struct.bits c - 1)).
  { rewrite <- Z.pow_succ_r by lia. f_equal. lia. }
  assert (Hp : 0 < 2 ^ (Struct.bits c - 1)) by (apply Z.pow_pos_nonneg; lia).
  set (v := if Struct.signed c && (2 ^ (Struct.bits c - 1) <=? u)
            then u - 2 ^ Struct.bits c else u).
  assert (Hv : Struct.min_value c <= v <= Struct.max_value c /\
               v mod 2 ^ Struct.bits c = u).
  { unfold v, Struct.min_value, Struct.max_value.
    destruct (Struct.signed c); cbn [andb].
    - destruct (Z.leb_spec (2 ^ (Struct.bits c - 1)) u).
      + split; [lia|].
        replace (u - 2 ^ Struct.bits c) with (u + (-1) * 2 ^ Struct.bits c) by lia.
        rewrite Z.mod_add by lia. apply Z.mod_small. lia.
      + split; [lia|]. apply Z.mod_small. lia.
    - split; [lia|]. apply Z.mod_small. lia. }
  destruct Hv as [Hr Hm].
  exists v. split; [reflexivity|]. split; [exact Hr|].
  unfold Struct.pack. apply in_range_bounds in Hr. rewrite Hr. f_equal.
  rewrite le_split_mod.
  replace (Z.of_nat (Struct.size c) * 8) with (Struct.bits c)
    by (unfold Struct.bits; lia).
  rewrite Hm. unfold u.
  rewrite split_le_combine' by (rewrite length_arrange; exact Hl).
  apply arrange_involutive.
Qed.

(** X1: Decoding then encoding: every byte string of the width of a codec
    decodes, with either byte order, to a value whose encoding with the
    same byte order is that byte string again. *)
Theorem primitive_codec_decode_encode (be : bool) (data : bytes) :
  (length data = 1%nat ->
   (v <- byte2py_int data ;; py_int2byte v) = Ok data) /\
  (length data = 2%nat ->
   (v <- word2py_int data be ;; py_int2word v be) = Ok data /\
   (v <- signed_word2py_int data be ;; py_int2signed_word v be) = Ok data) /\
  (length data = 4%nat ->
   (v <- dword2py_int data be ;; py_int2dword v be) = Ok data /\
   (v <- signed_dword2py_int data be ;; py_int2signed_dword v be) = Ok data).
Proof.
  assert (H : forall o c, length data = Struct.size c ->
            (v <- Struct.unpack o c data ;; Struct.pack o c v) = Ok data).
  { intros o c Hl. destruct (pack_unpack o c data Hl) as (v & -> & _ & Hp).
    exact Hp. }
  split; [|split]; intros Hl; [|split|split]; apply H; exact Hl.
Qed.

Lemma primitive_codec_decode_encode_witness :
  (v <- byte2py_int [Byte.xff] ;; py_int2byte v) = Ok [Byte.xff] /\
  (v <- signed_word2py_int [Byte.x34; Byte.xf2] true ;;
   py_int2signed_word v true) = Ok [Byte.x34; Byte.xf2] /\
  (v <- dword2py_int [Byte.x01; Byte.x02; Byte.x03; Byte.xff] true ;;
   py_int2dword v true) = Ok [Byte.x01; Byte.x02; Byte.x03; Byte.xff].
Proof.
  split; [|split].
  - apply (primitive_codec_decode_encode true [Byte.xff]). reflexivity.
  - apply (primitive_codec_decode_encode true [Byte.x34; Byte.xf2]).
    reflexivity.
  - apply (primitive_codec_decode_encode true
             [Byte.x01; Byte.x02; Byte.x03; Byte.xff]). reflexivity.
Defined.

Lemma unpack_decodes_within o c :
  decodes_within (Struct.unpack o c) (Struct.size c)
    (Struct.min_value c) (Struct.max_value c).
Proof.
  intros data. split.
  - apply unpack_wrong_size.
  - intros Hl. destruct (pack_unpack o c data Hl) as (v & Hu & Hr & _).
    exists v. split; assumption.
Qed.

Lemma pack_encodes_within o c :
  encodes_within (Struct.pack o c) (Struct.size c)
    (Struct.min_value c) (Struct.max_value c).
Proof.
  intros v. split.
  - intros Hv. unfold Struct.pack.
    destruct (Struct.in_range c v) eqn:E; [|reflexivity].
    apply in_range_bounds in E. lia.
  - intros Hv. apply in_range_bounds in Hv.
    destruct (unpack_pack o c v Hv) as (b & Hp & Hl & _).
    exists b. split; assumption.
Qed.

(** X2: Every decoder raises [struct.error] on a buffer that is not exactly 1,
    2 or 4 bytes long, and on a buffer of that length returns a value of
    its type: 0..255, 0..65535, -32768..32767, 0..2^32-1,
    -2^31..2^31-1. *)
Theorem decoders_check_length (be : bool) :
  decodes_within byte2py_int 1 0 255 /\
  decodes_within (fun data => word2py_int data be) 2 0 65535 /\
  decodes_within (fun data => signed_word2py_int data be) 2 (-32768) 32767 /\
  decodes_within (fun data => dword2py_int data be) 4 0 4294967295 /\
  decodes_within (fun data => signed_dword2py_int data be) 4
    (-2147483648) 2147483647.
Proof.
  split; [exact (unpack_decodes_within Struct.little Struct.fB)|].
  split; [exact (unpack_decodes_within (order_of be) Struct.fH)|].
  split; [exact (unpack_decodes_within (order_of be) Struct.fh)|].
  split; [exact (unpack_decodes_within (order_of be) Struct.fI)|].
  exact (unpack_decodes_within (order_of be) Struct.fi).
Qed.

Lemma decoders_check_length_witness :
  word2py_int [Byte.x01] true = Raise struct_error /\
  exists v, signed_dword2py_int [Byte.xff; Byte.xff; Byte.xff; Byte.xfe] true
            = Ok v /\ -2147483648 <= v <= 2147483647.
Proof.
  destruct (decoders_check_length true) as (_ & Hw & _ & _ & Hd).
  split.
  - apply (Hw [Byte.x01]). simpl. lia.
  - apply (Hd [Byte.xff; Byte.xff; Byte.xff; Byte.xfe]). reflexivity.
Defined.

(** X3: Every encoder raises [struct.error] on a value outside the range of
    its type (65536 or -1 as an unsigned word, for instance) and returns
    exactly 1, 2 or 4 bytes on a value inside it. *)
Theorem encoders_check_range (be : bool) :
  encodes_within py_int2byte 1 0 255 /\
  encodes_within (fun val => py_int2word val be) 2 0 65535 /\
  encodes_within (fun val => py_int2signed_word val be) 2 (-32768) 32767 /\
  encodes_within (fun val => py_int2dword val be) 4 0 4294967295 /\
  encodes_within (fun val => py_int2signed_dword val be) 4
    (-2147483648) 2147483647.
Proof.
  split; [exact (pack_encodes_within Struct.little Struct.fB)|].
  split; [exact (pack_encodes_within (order_of be) Struct.fH)|].
  split; [exact (pack_encodes_within (order_of be) Struct.fh)|].
  split; [exact (pack_encodes_within (order_of be) Struct.fI)|].
  exact (pack_encodes_within (order_of be) Struct.fi).
Qed.

Lemma encoders_check_range_witness :
  py_int2word 65536 false = Raise struct_error /\
  py_int2word (-1) false = Raise struct_error /\
  exists b, py_int2signed_word (-1) false = Ok b /\ length b = 2%nat.
Proof.
  destruct (encoders_check_range false) as (_ & Hw & Hs & _).
  split; [apply (Hw 65536); right; lia|].
  split; [apply (Hw (-1)); left; lia|].
  apply (Hs (-1)). lia.
Defined.

Lemma le_combine_cons b l :
  le_combine (b :: l) = byte.unsigned b + 256 * le_combine l.
Proof.
  change (le_combine (b :: l))
    with (Z.lor (byte.unsigned b) (Z.shiftl (le_combine l) 8)).
  pose proof (Z.add_lor_land (byte.unsigned b) (Z.shiftl (le_combine l) 8))
    as Hadd.
  rewrite Z.shiftl_mul_pow2 in * by lia. change (2 ^ 8) with 256 in *.
  enough (Z.land (byte.unsigned b) (le_combine l * 256) = 0) by lia.
  rewrite <- (Z.shiftl_mul_pow2 _ 8) by lia.
  - pose proof (byte.unsigned_range b) as Hb.
    apply Z.bits_inj'. intros n Hn.
    rewrite Z.land_spec, Z.bits_0.
    destruct (Z.lt_ge_cases n 8) as [H8|H8].
    + rewrite Z.shiftl_spec_low by assumption. apply andb_false_r.
    + destruct (Z.eq_dec (byte.unsigned b) 0) as [E|E].
      * rewrite E, Z.bits_0. reflexivity.
      * rewrite Z.bits_above_log2; [reflexivity | lia |].
        apply Z.log2_lt_pow2; [lia|].
        apply Z.lt_le_trans with (2 ^ 8); [lia|].
        apply Z.pow_le_mono_r; lia.
Qed.

(** X4: Byte weights: a little-endian word is [b0 + 256*b1], a big-endian word
    (and [uint16_be]) is [256*b0 + b1]; double words likewise with the
    weights 1, 256, 65536 and 16777216. *)
Theorem decoded_byte_weights (b0 b1 b2 b3 : byte) :
  let u := byte.unsigned in
  byte2py_int [b0] = Ok (u b0) /\
  word2py_int [b0; b1] false = Ok (u b0 + 256 * u b1) /\
  word2py_int [b0; b1] true = Ok (256 * u b0 + u b1) /\
  uint16_be [b0; b1] = Ok (256 * u b0 + u b1) /\
  dword2py_int [b0; b1; b2; b3] false =
    Ok (u b0 + 256 * u b1 + 65536 * u b2 + 16777216 * u b3) /\
  dword2py_int [b0; b1; b2; b3] true =
    Ok (16777216 * u b0 + 65536 * u b1 + 256 * u b2 + u b3).
Proof.
  intros u. unfold uint16_be, byte2py_int, word2py_int, dword2py_int,
    Struct.unpack. cbn [length Nat.eqb Struct.size order_of Struct.arrange
    Struct.signed andb rev app].
  rewrite !le_combine_cons, le_combine_nil.
  repeat split; f_equal; unfold u; lia.
Qed.

(** X5: Two's complement: the signed decoders return the unsigned value, less
    [2^16] (or [2^32]) when its top bit is set, and the signed encoders
    give the bytes the unsigned encoders give for the value modulo [2^16]
    (or [2^32]). *)
Theorem signed_codecs_twos_complement (be : bool) :
  (forall data, length data = 2%nat ->
     exists u, word2py_int data be = Ok u /\
               signed_word2py_int data be =
                 Ok (if u <? 32768 then u else u - 65536)) /\
  (forall data, length data = 4%nat ->
     exists u, dword2py_int data be = Ok u /\
               signed_dword2py_int data be =
                 Ok (if u <? 2147483648 then u else u - 4294967296)) /\
  (forall v, -32768 <= v <= 32767 ->
     py_int2signed_word v be = py_int2word (v mod 65536) be) /\
  (forall v, -2147483648 <= v <= 2147483647 ->
     py_int2signed_dword v be = py_int2dword (v mod 4294967296) be).
Proof.
  assert (Hdec : forall cs cu data,
            Struct.size cs = Struct.size cu ->
            Struct.signed cs = true -> Struct.signed cu = false ->
            length data = Struct.size cu ->
            exists u, Struct.unpack (order_of be) cu data = Ok u /\
              Struct.unpack (order_of be) cs data =
                Ok (if u <? 2 ^ (Struct.bits cu - 1) then u
                    else u - 2 ^ Struct.bits cu)).
  { intros cs cu data Hsz Hs Hu Hl. unfold Struct.unpack, Struct.bits.
    rewrite Hsz, Hl, Nat.eqb_refl, Hs, Hu. cbn [andb].
    eexists. split; [reflexivity|]. f_equal.
    set (u := le_combine _). set (p := 2 ^ _).
    destruct (Z.leb_spec p u); destruct (Z.ltb_spec u p); lia. }
  assert (Henc : forall cs cu v,
            Struct.size cs = Struct.size cu ->
            Struct.signed cs = true -> Struct.signed cu = false ->
            Struct.min_value cs <= v <= Struct.max_value cs ->
            Struct.pack (order_of be) cs v =
            Struct.pack (order_of be) cu (v mod 2 ^ Struct.bits cu)).
  { intros cs cu v Hsz Hs Hu Hr.
    assert (Hpos : 0 < 2 ^ Struct.bits cu).
    { apply Z.pow_pos_nonneg; [lia|]. unfold Struct.bits. lia. }
    pose proof (Z.mod_pos_bound v _ Hpos) as Hm.
    unfold Struct.pack.
    replace (Struct.in_range cs v) with true
      by (symmetry; apply in_range_bounds; exact Hr).
    replace (Struct.in_range cu (v mod 2 ^ Struct.bits cu)) with true.
    2:{ symmetry. apply in_range_bounds.
        unfold Struct.min_value, Struct.max_value. rewrite Hu. lia. }
    rewrite Hsz. rewrite (le_split_mod v).
    replace (Z.of_nat (Struct.size cu) * 8) with (Struct.bits cu)
      by (unfold Struct.bits; lia).
    reflexivity. }
  split; [|split; [|split]].
  - intros data Hl. apply (Hdec Struct.fh Struct.fH); auto.
  - intros data Hl. apply (Hdec Struct.fi Struct.fI); auto.
  - intros v Hv. apply (Henc Struct.fh Struct.fH); auto.
  - intros v Hv. apply (Henc Struct.fi Struct.fI); auto.
Qed.

Lemma signed_codecs_twos_complement_witness :
  (exists u, word2py_int [Byte.xff; Byte.xfe] true = Ok u /\
             signed_word2py_int [Byte.xff; Byte.xfe] true =
               Ok (if u <? 32768 then u else u - 65536)) /\
  py_int2signed_dword (-2) true = py_int2dword ((-2) mod 4294967296) true.
Proof.
  destruct (signed_codecs_twos_complement true) as (Hw & _ & _ & Hd).
  split.
  - apply (Hw [Byte.xff; Byte.xfe]). reflexivity.
  - apply (Hd (-2)). lia.
Defined.

(** ** [pair_dword2py_int] *)

(** X6: [pair_dword2py_int] raises [struct.error] unless it is given exactly 8
    bytes; on 8 bytes it returns what [dword2py_int], little-endian, returns
    on the first four bytes and on the last four. *)
Theorem pair_dword2py_int_halves (data : bytes) :
  (length data <> 8%nat -> pair_dword2py_int data = Raise struct_error) /\
  (length data = 8%nat ->
   exists a b,
     pair_dword2py_int data = Ok (a, b) /\
     dword2py_int (firstn 4 data) false = Ok a /\
     dword2py_int (skipn 4 data) false = Ok b /\
     0 <= a < 2 ^ 32 /\ 0 <= b < 2 ^ 32).
Proof.
  unfold pair_dword2py_int. split; intros Hl.
  - destruct (Nat.eqb_spec (length data) 8); [contradiction|reflexivity].
  - rewrite Hl. cbn [Nat.eqb].
    assert (E1 : slice 0 4 data = firstn 4 data) by reflexivity.
    assert (E2 : slice 4 8 data = skipn 4 data).
    { unfold slice. apply firstn_all2. rewrite length_skipn. lia. }
    rewrite E1, E2.
    destruct (unpack_u32 (firstn 4 data)) as [Ha Hra];
      [rewrite length_firstn; lia|].
    destruct (unpack_u32 (skipn 4 data)) as [Hb Hrb];
      [rewrite length_skipn; lia|].
    exists (le_combine (firstn 4 data)), (le_combine (skipn 4 data)).
    unfold dword2py_int. cbn [order_of]. rewrite Ha, Hb.
    repeat split; try reflexivity; lia.
Qed.

Lemma pair_dword2py_int_halves_witness :
  pair_dword2py_int [Byte.x01] = Raise struct_error /\
  exists a b,
    pair_dword2py_int (le_split 4 7 ++ le_split 4 9) = Ok (a, b) /\
    dword2py_int (firstn 4 (le_split 4 7 ++ le_split 4 9)) false = Ok a /\
    dword2py_int (skipn 4 (le_split 4 7 ++ le_split 4 9)) false = Ok b /\
    0 <= a < 2 ^ 32 /\ 0 <= b < 2 ^ 32.
Proof.
  split.
  - apply (pair_dword2py_int_halves [Byte.x01]). simpl. lia.
  - apply (pair_dword2py_int_halves (le_split 4 7 ++ le_split 4 9)).
    reflexivity.
Defined.

(** X7: Two double words encoded little-endian by [py_int2dword] and
    concatenated are read back as the pair by [pair_dword2py_int]. *)
Theorem pair_dword2py_int_of_encoded (a b : Z) (ba bb : bytes) :
  py_int2dword a false = Ok ba -> py_int2dword b false = Ok bb ->
  pair_dword2py_int (ba ++ bb) = Ok (a, b).
Proof.
  unfold py_int2dword. cbn [order_of]. intros Ha Hb.
  assert (Hra : Struct.in_range Struct.fI a = true).
  { unfold Struct.pack in Ha. destruct (Struct.in_range Struct.fI a);
      [reflexivity | discriminate]. }
  assert (Hrb : Struct.in_range Struct.fI b = true).
  { unfold Struct.pack in Hb. destruct (Struct.in_range Struct.fI b);
      [reflexivity | discriminate]. }
  destruct (unpack_pack Struct.little Struct.fI a Hra) as (ba' & Ea & La & Ua).
  destruct (unpack_pack Struct.little Struct.fI b Hrb) as (bb' & Eb & Lb & Ub).
  rewrite Ha in Ea. injection Ea as <-.
  rewrite Hb in Eb. injection Eb as <-.
  change (Struct.size Struct.fI) with 4%nat in La, Lb.
  unfold pair_dword2py_int. rewrite length_app, La, Lb. cbn [Nat.add Nat.eqb].
  assert (E1 : slice 0 4 (ba ++ bb) = ba).
  { unfold slice. cbn [skipn Nat.sub].
    rewrite firstn_app, La, Nat.sub_diag, firstn_all2 by lia.
    cbn [firstn]. apply app_nil_r. }
  assert (E2 : slice 4 8 (ba ++ bb) = bb).
  { unfold slice. rewrite skipn_app, La, Nat.sub_diag, skipn_all2 by lia.
    cbn [skipn app]. apply firstn_all2. lia. }
  rewrite E1, E2, Ua, Ub. reflexivity.
Qed.

Lemma pair_dword2py_int_of_encoded_witness :
  pair_dword2py_int (le_split 4 7 ++ le_split 4 4294967295) =
  Ok (7, 4294967295).
Proof.
  apply pair_dword2py_int_of_encoded; reflexivity.
Defined.

(** ** [get_chunk_size]: lengths, range and re-encoding *)

(** X8: [get_chunk_size] raises [struct.error] unless it is given exactly 4
    bytes.  The padded size lies between 0 and [2^32]; it is [2^32], which
    [py_int2dword] cannot encode, exactly when the field is [0xFFFFFFFF];
    any smaller result can be encoded again and padding it a second time
    changes nothing. *)
Theorem get_chunk_size_padded (size_field : bytes) :
  (length size_field <> 4%nat ->
   get_chunk_size size_field = Raise struct_error) /\
  (length size_field = 4%nat ->
   exists r,
     get_chunk_size size_field = Ok r /\ 0 <= r <= 2 ^ 32 /\
     (r = 2 ^ 32 <-> le_combine size_field = 2 ^ 32 - 1) /\
     (r = 2 ^ 32 -> py_int2dword r false = Raise struct_error) /\
     (r < 2 ^ 32 ->
      exists b, py_int2dword r false = Ok b /\ get_chunk_size b = Ok r)).
Proof.
  unfold get_chunk_size, dword2py_int, py_int2dword. cbn [order_of].
  split; intros Hl.
  - rewrite unpack_wrong_size by exact Hl. reflexivity.
  - destruct (unpack_u32 size_field Hl) as [-> Hb]. cbn [Py.bind].
    set (raw := le_combine size_field) in *.
    pose proof (Z.mod_pos_bound raw 2 ltac:(lia)) as Hm.
    pose proof (Z.div_mod raw 2 ltac:(lia)) as Hd.
    set (r := if raw mod 2 =? 0 then raw else raw + 1).
    assert (Hr : (r = raw \/ r = raw + 1) /\ r mod 2 = 0).
    { unfold r. destruct (Z.eqb_spec (raw mod 2) 0) as [E|E].
      - split; [left; reflexivity | exact E].
      - split; [right; reflexivity|].
        replace (raw + 1) with (0 + (raw / 2 + 1) * 2) by lia.
        rewrite Z.mod_add by lia. reflexivity. }
    destruct Hr as [Hr Hev].
    exists r. split; [reflexivity|]. split; [lia|].
    split; [|split].
    + split; intros H.
      * destruct Hr as [E|E]; [lia|lia].
      * destruct Hr as [E|E]; [|lia].
        rewrite E, H in Hev. vm_compute in Hev. discriminate Hev.
    + intros H. apply pack_u32_overflow. lia.
    + intros H.
      assert (Hin : Struct.in_range Struct.fI r = true).
      { apply in_range_bounds.
        change (Struct.min_value Struct.fI) with 0.
        change (Struct.max_value Struct.fI) with (2 ^ 32 - 1). lia. }
      destruct (unpack_pack Struct.little Struct.fI r Hin) as (b & Hp & _ & Hu).
      exists b. split; [exact Hp|]. rewrite Hu. cbn [Py.bind]. rewrite Hev.
      reflexivity.
Qed.

Lemma get_chunk_size_padded_witness :
  get_chunk_size [Byte.x01; Byte.x02] = Raise struct_error /\
  exists r,
    get_chunk_size (le_split 4 4294967295) = Ok r /\ 0 <= r <= 2 ^ 32 /\
    (r = 2 ^ 32 <-> le_combine (le_split 4 4294967295) = 2 ^ 32 - 1) /\
    (r = 2 ^ 32 -> py_int2dword r false = Raise struct_error) /\
    (r < 2 ^ 32 ->
     exists b, py_int2dword r false = Ok b /\ get_chunk_size b = Ok r).
Proof.
  split.
  - apply (get_chunk_size_padded [Byte.x01; Byte.x02]). simpl. lia.
  - apply (get_chunk_size_padded (le_split 4 4294967295)). reflexivity.
Defined.

(** ** [dib_to_bmp]: what a produced BMP looks like *)

Lemma pack_u32_inv v b :
  Struct.pack Struct.little Struct.fI v = Ok b ->
  0 <= v < 2 ^ 32 /\ b = le_split 4 v.
Proof.
  unfold Struct.pack. destruct (Struct.in_range Struct.fI v) eqn:E;
    [|discriminate].
  intros H. injection H as <-. apply in_range_bounds in E.
  change (Struct.min_value Struct.fI) with 0 in E.
  change (Struct.max_value Struct.fI) with (2 ^ 32 - 1) in E.
  split; [lia | reflexivity].
Qed.

Lemma dib_to_bmp_inv dib bmp :
  dib_to_bmp dib = Ok bmp ->
  exists offset r,
    header_region dib = Ok offset /\ align4 offset = Ok r /\
    0 <= 14 + r < 2 ^ 32 /\ 0 <= 14 + len dib < 2 ^ 32 /\
    bmp = magic_BM ++ le_split 4 (14 + len dib) ++ four_zero_bytes ++
          le_split 4 (14 + r) ++ dib.
Proof.
  rewrite dib_to_bmp_stages.
  destruct (header_region dib) as [o|] eqn:Ho; [|discriminate]. cbn [Py.bind].
  destruct (align4 o) as [r|] eqn:Ha; [|discriminate]. cbn [Py.bind].
  destruct (Struct.pack Struct.little Struct.fI (14 + r)) as [po|] eqn:Hpo;
    [|discriminate]. cbn [Py.bind].
  destruct (Struct.pack Struct.little Struct.fI (14 + len dib)) as [fs|] eqn:Hfs;
    [|discriminate]. cbn [Py.bind].
  intros H. injection H as <-.
  apply pack_u32_inv in Hpo, Hfs. destruct Hpo as [Hr ->], Hfs as [Hl ->].
  exists o, r. repeat split; try reflexivity; try assumption; lia.
Qed.

Lemma long_enough_of_success dib bmp :
  dib_to_bmp dib = Ok bmp -> (required_length dib <= length dib)%nat.
Proof.
  intros H.
  destruct (Nat.lt_ge_cases (length dib) (required_length dib)) as [Hs|Hl];
    [|exact Hl].
  rewrite dib_to_bmp_short in H by assumption. discriminate.
Qed.

(** X9: In every BMP that [dib_to_bmp] produces, the first two bytes are "BM",
    bytes 6 to 9 are zero, the stored file size is the real length of the
    BMP, and the stored pixel offset is at least [14 + header_size] and
    leaves remainder 2 modulo 4. *)
Theorem produced_bmp_is_consistent (dib bmp : bytes) :
  dib_to_bmp dib = Ok bmp ->
  slice 0 2 bmp = magic_BM /\
  slice 6 10 bmp = four_zero_bytes /\
  stored_file_size bmp = len bmp /\
  14 + header_size dib <= stored_pixel_offset bmp /\
  stored_pixel_offset bmp mod 4 = 2.
Proof.
  intros Hbmp.
  pose proof (long_enough_of_success dib bmp Hbmp) as Hl.
  destruct (dib_to_bmp_inv dib bmp Hbmp) as (o & r & Ho & Hr & Hr32 & Hl32 & ->).
  destruct (region_spec dib Hl) as (p & o' & _ & Ho' & _ & Hshape & Hlo & _).
  rewrite Ho in Ho'. injection Ho' as <-.
  destruct (align4_spec o Hshape) as (r' & Hr' & Hmod & Hle & _).
  rewrite Hr in Hr'. injection Hr' as <-.
  destruct (stored_fields dib (14 + len dib) (14 + r) Hl32 Hr32) as [Hfs Hpo].
  split; [reflexivity|]. split.
  - replace (magic_BM ++ le_split 4 (14 + len dib) ++ four_zero_bytes ++
             le_split 4 (14 + r) ++ dib)
      with ((magic_BM ++ le_split 4 (14 + len dib)) ++ four_zero_bytes ++
            le_split 4 (14 + r) ++ dib)
      by (rewrite <- !app_assoc; reflexivity).
    apply slice_middle; rewrite ?length_app, ?length_le_split; reflexivity.
  - split; [|split].
    + rewrite Hfs. unfold len.
      rewrite !length_app, !length_le_split. cbn [length magic_BM four_zero_bytes].
      lia.
    + rewrite Hpo.
      assert (H : (inject_Z (header_size dib) <= inject_Z r)%Q)
        by (eapply Qle_trans; eassumption).
      rewrite <- Zle_Qle in H. lia.
    + rewrite Hpo. apply Z.mod_divide in Hmod; [|lia].
      destruct Hmod as [c ->].
      replace (14 + c * 4) with (2 + (c + 3) * 4) by lia.
      rewrite Z.mod_add by lia. reflexivity.
Qed.

Lemma produced_bmp_is_consistent_witness :
  exists bmp,
    dib_to_bmp (modern_dib 40 8 0) = Ok bmp /\
    slice 0 2 bmp = magic_BM /\
    slice 6 10 bmp = four_zero_bytes /\
    stored_file_size bmp = len bmp /\
    14 + header_size (modern_dib 40 8 0) <= stored_pixel_offset bmp /\
    stored_pixel_offset bmp mod 4 = 2.
Proof.
  eexists. split; [vm_compute; reflexivity|].
  apply (produced_bmp_is_consistent (modern_dib 40 8 0)).
  vm_compute. reflexivity.
Defined.

(** X10: [dib_to_bmp] is injective: two inputs with the same BMP are equal. *)
Theorem dib_to_bmp_injective (dib1 dib2 bmp : bytes) :
  dib_to_bmp dib1 = Ok bmp -> dib_to_bmp dib2 = Ok bmp -> dib1 = dib2.
Proof.
  intros H1 H2.
  destruct (dib_to_bmp_header dib1 bmp H1) as (h1 & L1 & E1).
  destruct (dib_to_bmp_header dib2 bmp H2) as (h2 & L2 & E2).
  rewrite <- (skipn_header h1 dib1 L1), <- (skipn_header h2 dib2 L2).
  rewrite <- E1, <- E2. reflexivity.
Qed.

Lemma dib_to_bmp_injective_witness :
  legacy_dib 4 = firstn 12 (legacy_dib 4 ++ [Byte.x00]).
Proof.
  eapply dib_to_bmp_injective; vm_compute; reflexivity.
Defined.

(** X11: Unwrapping any byte string with [bmp_to_dib] and wrapping the result
    again with [dib_to_bmp] keeps the bytes from offset 14 on, rebuilds the
    first 14, and reaches a fixed point: doing it once more changes
    nothing. *)
Theorem rewrap_is_normal_form (bmp bmp' : bytes) :
  (d <- bmp_to_dib bmp ;; dib_to_bmp d) = Ok bmp' ->
  skipn 14 bmp' = skipn 14 bmp /\
  length bmp' = (14 + (length bmp - 14))%nat /\
  (d <- bmp_to_dib bmp' ;; dib_to_bmp d) = Ok bmp'.
Proof.
  unfold bmp_to_dib, slice_from. cbn [Py.bind]. intros H.
  destruct (dib_to_bmp_header _ _ H) as (hdr & Hh & E).
  assert (Hs : skipn 14 bmp' = skipn 14 bmp).
  { rewrite E. apply skipn_header. exact Hh. }
  split; [exact Hs|]. split.
  - rewrite E, length_app, Hh, length_skipn. reflexivity.
  - rewrite Hs. exact H.
Qed.

Lemma rewrap_is_normal_form_witness :
  exists bmp',
    skipn 14 bmp' = skipn 14 (repeat Byte.xff 14 ++ modern_dib 40 24 0) /\
    length bmp' =
      (14 + (length (repeat Byte.xff 14 ++ modern_dib 40 24 0) - 14))%nat /\
    (d <- bmp_to_dib bmp' ;; dib_to_bmp d) = Ok bmp'.
Proof.
  eexists. apply rewrap_is_normal_form. vm_compute. reflexivity.
Defined.

(** ** [dib_to_bmp] in whole bytes *)

Lemma stored_fields_inv dib bmp :
  dib_to_bmp dib = Ok bmp ->
  exists offset r,
    header_region dib = Ok offset /\ align4 offset = Ok r /\
    stored_pixel_offset bmp = 14 + r /\
    stored_file_size bmp = 14 + len dib.
Proof.
  intros H.
  destruct (dib_to_bmp_inv dib bmp H) as (o & r & Ho & Hr & Hr32 & Hl32 & ->).
  destruct (stored_fields dib (14 + len dib) (14 + r) Hl32 Hr32) as [Hfs Hpo].
  exists o, r. repeat split; assumption.
Qed.

Lemma palette_whole dib :
  (required_length dib <= length dib)%nat -> 0 <= bit_count dib ->
  exists p, palette_size dib = Ok p /\
            (num_value p == inject_Z (whole_palette dib))%Q.
Proof.
  intros Hl Hb.
  assert (Hpow : forall bpp, 0 <= bpp ->
            (num_value (Float (pow_term bpp)) == inject_Z (3 * 2 ^ bpp))%Q).
  { intros bpp H. unfold pow_term.
    destruct (Z.ltb_spec bpp (-1074)); [lia|].
    cbn [num_value Float64.value].
    rewrite inject_Z_mult, Qpow2_inject by lia. reflexivity. }
  unfold bit_count, whole_palette in *.
  destruct (required_length_cases dib Hl) as [[H12 L]|[H12 L]].
  - rewrite (palette_size_legacy dib H12 L).
    rewrite H12 in *. change (12 =? 12) with true in *. cbv iota in *.
    eexists. split; [reflexivity|].
    destruct (bits_per_pixel 10 dib >? 8); [reflexivity | apply Hpow; exact Hb].
  - rewrite (palette_size_modern dib H12 L).
    destruct (Z.eqb_spec (header_size dib) 12); [contradiction|].
    eexists. split; [reflexivity|].
    destruct (bits_per_pixel 14 dib >? 8); [reflexivity | apply Hpow; exact Hb].
Qed.

(** X12: For a bit count that is not negative the float arithmetic of
    [dib_to_bmp] is exact.  With [region = header_size + palette] in whole
    bytes (palette: [3 * 2^bpp] up to 8 bits per pixel, else 0 in the
    legacy layout and [3 * colors_used] in the modern one), a long enough
    [dib] gives the BMP whose pixel offset is [14 + 4 * ((region + 3) / 4)]
    when [region <= 2^32 - 16] and [14 + len(dib) < 2^32], and raises
    [struct.error] otherwise. *)
Theorem dib_to_bmp_whole_bytes (dib : bytes) :
  (required_length dib <= length dib)%nat -> 0 <= bit_count dib ->
  let region := header_size dib + whole_palette dib in
  (exists offset, header_region dib = Ok offset /\
                  (num_value offset == inject_Z region)%Q) /\
  (region <= 2 ^ 32 - 16 -> 14 + len dib < 2 ^ 32 ->
   dib_to_bmp dib =
   Ok (magic_BM ++ le_split 4 (14 + len dib) ++ four_zero_bytes ++
       le_split 4 (14 + 4 * ((region + 3) / 4)) ++ dib)) /\
  (2 ^ 32 - 16 < region \/ 2 ^ 32 <= 14 + len dib ->
   dib_to_bmp dib = Raise struct_error).
Proof.
  intros Hl Hb region.
  destruct (palette_whole dib Hl Hb) as (p & Hp & Hpv).
  destruct (region_spec dib Hl) as (p' & o & Hp' & Ho & _ & _ & _ & Hint).
  rewrite Hp in Hp'. injection Hp' as <-.
  pose proof (Hint _ Hpv) as Hval. fold region in Hval.
  split; [exists o; split; assumption|]. split.
  - intros Hfit Hlen.
    destruct (dib_to_bmp_succeeds dib o Hl Ho) as (r & _ & Hmod & _ & Hv & E);
      [rewrite Hval, <- Zle_Qle; exact Hfit | exact Hlen |].
    rewrite Hval in Hv. destruct Hv as [Hlo Hhi].
    rewrite <- Zle_Qle in Hlo.
    change 4%Q with (inject_Z 4) in Hhi.
    rewrite <- inject_Z_plus, <- Zlt_Qlt in Hhi.
    apply Z.mod_divide in Hmod; [|lia]. destruct Hmod as [c ->].
    replace (4 * ((region + 3) / 4)) with (c * 4); [exact E|].
    rewrite (Z.mul_comm c 4). f_equal.
    apply Z.div_unique with (r := region + 3 - 4 * c); lia.
  - intros Hbig. apply (dib_to_bmp_overflows dib o Hl Ho).
    destruct Hbig as [Hbig|Hbig]; [left | right; exact Hbig].
    rewrite Hval, <- Zlt_Qlt. exact Hbig.
Qed.

Lemma dib_to_bmp_whole_bytes_witness :
  (exists offset, header_region (modern_dib 40 4 7) = Ok offset /\
                  (num_value offset == inject_Z (40 + 3 * 2 ^ 4))%Q) /\
  dib_to_bmp (modern_dib 40 4 7) =
  Ok (magic_BM ++ le_split 4 (14 + len (modern_dib 40 4 7)) ++
      four_zero_bytes ++ le_split 4 (14 + 4 * ((40 + 3 * 2 ^ 4 + 3) / 4)) ++
      modern_dib 40 4 7).
Proof.
  destruct (dib_to_bmp_whole_bytes (modern_dib 40 4 7)) as (H1 & H2 & _);
    [vm_compute; lia | vm_compute; discriminate |].
  split; [exact H1|].
  apply H2; vm_compute; [discriminate | reflexivity].
Defined.

(** X13: In the modern layout with 8 bits per pixel or fewer the colors-used
    field is not consulted: two DIBs with the same header size and bit
    count have the same header region, hence the same pixel offset,
    whatever their colors-used fields hold. *)
Theorem low_depth_ignores_colors_used (dib1 dib2 : bytes) :
  header_size dib1 <> 12 -> header_size dib2 = header_size dib1 ->
  bits_per_pixel 14 dib1 <= 8 ->
  bits_per_pixel 14 dib2 = bits_per_pixel 14 dib1 ->
  (36 <= length dib1)%nat -> (36 <= length dib2)%nat ->
  header_region dib1 = header_region dib2 /\
  forall bmp1 bmp2,
    dib_to_bmp dib1 = Ok bmp1 -> dib_to_bmp dib2 = Ok bmp2 ->
    stored_pixel_offset bmp1 = stored_pixel_offset bmp2.
Proof.
  intros H12 Hh Hb Hbb L1 L2.
  assert (Hreg : header_region dib1 = header_region dib2).
  { pose proof (palette_size_modern dib1 H12 L1) as P1.
    pose proof (palette_size_modern dib2 ltac:(congruence) L2) as P2.
    rewrite Hbb in P2.
    destruct (Z.gtb_spec (bits_per_pixel 14 dib1) 8); [lia|].
    rewrite (header_region_unfold dib1 _ ltac:(lia) P1).
    rewrite (header_region_unfold dib2 _ ltac:(lia) P2).
    rewrite Hh. reflexivity. }
  split; [exact Hreg|].
  intros bmp1 bmp2 B1 B2.
  destruct (stored_fields_inv dib1 bmp1 B1) as (o1 & r1 & Ho1 & Hr1 & -> & _).
  destruct (stored_fields_inv dib2 bmp2 B2) as (o2 & r2 & Ho2 & Hr2 & -> & _).
  rewrite Hreg, Ho2 in Ho1. injection Ho1 as <-.
  rewrite Hr2 in Hr1. injection Hr1 as <-. reflexivity.
Qed.

Lemma low_depth_ignores_colors_used_witness :
  header_region (modern_dib 40 8 2) = header_region (modern_dib 40 8 200) /\
  forall bmp1 bmp2,
    dib_to_bmp (modern_dib 40 8 2) = Ok bmp1 ->
    dib_to_bmp (modern_dib 40 8 200) = Ok bmp2 ->
    stored_pixel_offset bmp1 = stored_pixel_offset bmp2.
Proof.
  apply low_depth_ignores_colors_used;
    try (vm_compute; reflexivity); try (vm_compute; discriminate);
    vm_compute; lia.
Defined.

(** ** [dib_to_bmp] reads the header only *)

Lemma slice_app_short i j (a b : bytes) :
  (i <= j)%nat -> (j <= length a)%nat -> slice i j (a ++ b) = slice i j a.
Proof.
  intros Hij Hj. unfold slice.
  rewrite skipn_app. replace (i - length a)%nat with 0%nat by lia.
  cbn [skipn]. rewrite firstn_app, length_skipn.
  replace (j - i - (length a - i))%nat with 0%nat by lia.
  cbn [firstn]. apply app_nil_r.
Qed.

Lemma header_fields_app dib extra :
  (required_length dib <= length dib)%nat ->
  header_size (dib ++ extra) = header_size dib /\
  bits_per_pixel 10 (dib ++ extra) = bits_per_pixel 10 dib /\
  (header_size dib <> 12 ->
   bits_per_pixel 14 (dib ++ extra) = bits_per_pixel 14 dib /\
   colors_used (dib ++ extra) = colors_used dib).
Proof.
  intros Hl.
  assert (H12 : (12 <= length dib)%nat).
  { unfold required_length in Hl. destruct (header_size dib =? 12); lia. }
  unfold header_size, bits_per_pixel, colors_used.
  split; [rewrite slice_app_short by lia; reflexivity|].
  split; [rewrite slice_app_short by lia; reflexivity|].
  intros Hne.
  assert (H36 : (36 <= length dib)%nat).
  { unfold required_length in Hl.
    destruct (Z.eqb_spec (header_size dib) 12); [contradiction | lia]. }
  split; rewrite slice_app_short by lia; reflexivity.
Qed.

(** X14: Bytes after the header fields do not influence the header geometry:
    appending any bytes to a long enough DIB leaves the header region and
    the pixel offset unchanged and adds their number to the file size. *)
Theorem dib_to_bmp_ignores_payload (dib extra : bytes) :
  (required_length dib <= length dib)%nat ->
  header_region (dib ++ extra) = header_region dib /\
  forall bmp bmp',
    dib_to_bmp dib = Ok bmp -> dib_to_bmp (dib ++ extra) = Ok bmp' ->
    stored_pixel_offset bmp' = stored_pixel_offset bmp /\
    stored_file_size bmp' = stored_file_size bmp + len extra.
Proof.
  intros Hl.
  destruct (header_fields_app dib extra Hl) as (Hh & Hb10 & Hmod).
  assert (Hreg : header_region (dib ++ extra) = header_region dib).
  { assert (L : (length dib <= length (dib ++ extra))%nat)
      by (rewrite length_app; lia).
    destruct (required_length_cases dib Hl) as [[H12 L12]|[H12 L36]].
    - pose proof (palette_size_legacy dib H12 L12) as P.
      pose proof (palette_size_legacy (dib ++ extra) ltac:(congruence)
                    ltac:(lia)) as P'.
      rewrite Hb10 in P'.
      rewrite (header_region_unfold dib _ ltac:(lia) P).
      rewrite (header_region_unfold (dib ++ extra) _ ltac:(lia) P'), Hh.
      reflexivity.
    - destruct (Hmod H12) as [Hb14 Hc].
      pose proof (palette_size_modern dib H12 L36) as P.
      pose proof (palette_size_modern (dib ++ extra) ltac:(congruence)
                    ltac:(lia)) as P'.
      rewrite Hb14, Hc in P'.
      rewrite (header_region_unfold dib _ ltac:(lia) P).
      rewrite (header_region_unfold (dib ++ extra) _ ltac:(lia) P'), Hh.
      reflexivity. }
  split; [exact Hreg|].
  intros bmp bmp' B B'.
  destruct (stored_fields_inv _ _ B) as (o & r & Ho & Hr & -> & ->).
  destruct (stored_fields_inv _ _ B') as (o' & r' & Ho' & Hr' & -> & ->).
  rewrite Hreg, Ho in Ho'. injection Ho' as <-.
  rewrite Hr in Hr'. injection Hr' as <-.
  split; [reflexivity|]. unfold len. rewrite length_app. lia.
Qed.

Lemma dib_to_bmp_ignores_payload_witness :
  header_region (modern_dib 40 24 0 ++ [Byte.x11; Byte.x22; Byte.x33]) =
  header_region (modern_dib 40 24 0) /\
  forall bmp bmp',
    dib_to_bmp (modern_dib 40 24 0) = Ok bmp ->
    dib_to_bmp (modern_dib 40 24 0 ++ [Byte.x11; Byte.x22; Byte.x33]) =
      Ok bmp' ->
    stored_pixel_offset bmp' = stored_pixel_offset bmp /\
    stored_file_size bmp' =
      stored_file_size bmp + len [Byte.x11; Byte.x22; Byte.x33].
Proof.
  apply dib_to_bmp_ignores_payload. vm_compute. lia.
Defined.

(** ** The legacy layout never overflows *)

(** X15: With a header size of 12, a [dib] of 12 bytes or more whose file size
    fits 32 bits is always converted, whatever its bit count (negative
    ones included), and the pixel offset lies between 26 and 794. *)
Theorem legacy_always_converts (dib : bytes) :
  header_size dib = 12 -> (12 <= length dib)%nat -> 14 + len dib < 2 ^ 32 ->
  exists bmp,
    dib_to_bmp dib = Ok bmp /\ 26 <= stored_pixel_offset bmp <= 794.
Proof.
  intros H12 Hl Hlen.
  assert (Hreq : (required_length dib <= length dib)%nat).
  { unfold required_length. rewrite H12. exact Hl. }
  pose proof (palette_size_legacy dib H12 Hl) as Hp.
  pose proof (header_region_unfold dib _ ltac:(lia) Hp) as Hreg.
  rewrite H12 in Hreg.
  assert (Hb : exists o, header_region dib = Ok o /\
                 (inject_Z 12 <= num_value o /\ num_value o <= inject_Z 780)%Q).
  { destruct (Z.gtb_spec (bits_per_pixel 10 dib) 8).
    - exists (Int 12). split; [exact Hreg|].
      cbn [num_value]. rewrite <- !Zle_Qle. lia.
    - destruct (add_header_pow 12 (bits_per_pixel 10 dib)) as (o & Ho & _ & Hv & _);
        [lia | lia |].
      exists o. split; [rewrite Hreg; exact Ho | exact Hv]. }
  destruct Hb as (o & Ho & Hlo & Hhi).
  destruct (dib_to_bmp_succeeds dib o Hreq Ho) as (r & _ & Hmod & Hr & Hv & E);
    [eapply Qle_trans; [exact Hhi|]; rewrite <- Zle_Qle; lia | exact Hlen |].
  destruct (stored_fields dib (14 + len dib) (14 + r)) as [_ Hpo];
    [unfold len in *; lia | lia |].
  eexists. split; [exact E|]. rewrite Hpo.
  destruct Hv as [Hle Hlt].
  assert (H1 : (inject_Z 12 <= inject_Z r)%Q) by (eapply Qle_trans; eassumption).
  assert (H2 : (inject_Z r < inject_Z (780 + 4))%Q).
  { rewrite inject_Z_plus. change (inject_Z 4) with 4%Q.
    eapply Qlt_le_trans; [exact Hlt|]. lra. }
  rewrite <- Zle_Qle in H1. rewrite <- Zlt_Qlt in H2.
  apply Z.mod_divide in Hmod; [|lia]. destruct Hmod as [c ->]. lia.
Qed.

Lemma legacy_always_converts_witness :
  exists bmp,
    dib_to_bmp (legacy_dib (-7)) = Ok bmp /\
    26 <= stored_pixel_offset bmp <= 794.
Proof.
  apply legacy_always_converts; vm_compute; reflexivity.
Defined.

(** ** Failures and the unchecked header *)

(** X16: Whatever the input, [dib_to_bmp] raises nothing but [struct.error]:
    the float operations on its path ([math.pow], the division, [math.ceil])
    never raise. *)
Theorem dib_to_bmp_raises_only_struct_error (dib : bytes) (e : exn) :
  dib_to_bmp dib = Raise e -> e = struct_error.
Proof.
  intros H.
  destruct (Nat.lt_ge_cases (length dib) (required_length dib)) as [Hs|Hl].
  { rewrite dib_to_bmp_short in H by assumption. congruence. }
  destruct (region_spec dib Hl) as (p & o & _ & Ho & _).
  destruct (Qlt_le_dec (inject_Z (2 ^ 32 - 16)) (num_value o)) as [Hbig|Hfit].
  { rewrite (dib_to_bmp_overflows dib o Hl Ho (or_introl Hbig)) in H.
    congruence. }
  destruct (Z.le_gt_cases (2 ^ 32) (14 + len dib)) as [Hbig|Hlen].
  { rewrite (dib_to_bmp_overflows dib o Hl Ho (or_intror Hbig)) in H.
    congruence. }
  destruct (dib_to_bmp_succeeds dib o Hl Ho Hfit ltac:(lia))
    as (r & _ & _ & _ & _ & E).
  rewrite E in H. discriminate H.
Qed.

Lemma dib_to_bmp_raises_only_struct_error_witness :
  exists e, dib_to_bmp [Byte.x0c; Byte.x00] = Raise e /\ e = struct_error.
Proof.
  eexists. split; [vm_compute; reflexivity|].
  apply (dib_to_bmp_raises_only_struct_error [Byte.x0c; Byte.x00]).
  vm_compute. reflexivity.
Defined.

(** X17: [bmp_to_dib] never looks at the first 14 bytes: whatever they are, it
    returns the rest. *)
Theorem bmp_to_dib_ignores_header (hdr1 hdr2 dib : bytes) :
  length hdr1 = 14%nat -> length hdr2 = 14%nat ->
  bmp_to_dib (hdr1 ++ dib) = Ok dib /\
  bmp_to_dib (hdr1 ++ dib) = bmp_to_dib (hdr2 ++ dib).
Proof.
  intros H1 H2. unfold bmp_to_dib, slice_from.
  rewrite !skipn_header by assumption. split; reflexivity.
Qed.

Lemma bmp_to_dib_ignores_header_witness :
  bmp_to_dib (repeat Byte.x00 14 ++ legacy_dib 1) = Ok (legacy_dib 1) /\
  bmp_to_dib (repeat Byte.x00 14 ++ legacy_dib 1) =
  bmp_to_dib (repeat Byte.xff 14 ++ legacy_dib 1).
Proof.
  apply bmp_to_dib_ignores_header; reflexivity.
Defined.

(** X18: Every BMP that [dib_to_bmp] produces is rebuilt, byte for byte, by
    unwrapping it with [bmp_to_dib] and wrapping the result again. *)
Theorem produced_bmp_rewraps_to_itself (dib bmp : bytes) :
  dib_to_bmp dib = Ok bmp ->
  (d <- bmp_to_dib bmp ;; dib_to_bmp d) = Ok bmp.
Proof.
  intros H. destruct (dib_to_bmp_header dib bmp H) as (hdr & Hh & E).
  unfold bmp_to_dib, slice_from. cbn [Py.bind].
  rewrite E at 1. rewrite skipn_header by assumption. exact H.
Qed.

Lemma produced_bmp_rewraps_to_itself_witness :
  exists bmp,
    dib_to_bmp (modern_dib 40 24 0) = Ok bmp /\
    (d <- bmp_to_dib bmp ;; dib_to_bmp d) = Ok bmp.
Proof.
  eexists. split; [vm_compute; reflexivity|].
  apply (produced_bmp_rewraps_to_itself (modern_dib 40 24 0)).
  vm_compute. reflexivity.
Defined.
